(** * Verification of the nah packaging recipes and of the launch-contract core

    The repository ships Conan recipes ([conanfile.py], the example SDK
    recipe and the test package); the C++ core they build (version
    resolver, package codec, materializer, contract composer) is described
    by the specification.  The recipes are embedded as they are written;
    the core components are modelled from the specification and say so in
    their doc comments. *)

From Stdlib Require Import String Ascii List Bool ZArith Lia Permutation.
From Stdlib Require Import Strings.Byte.
Import ListNotations.
Open Scope string_scope.

(** ** Python dictionaries with insertion order *)

Module PyDict.

(** [d[k] = v]: overwrite in place when present, append otherwise. *)
Fixpoint setitem {V} (k : string) (v : V) (d : list (string * V))
  : list (string * V) :=
  match d with
  | [] => [(k, v)]
  | (k', v') :: d' =>
      if String.eqb k k' then (k, v) :: d' else (k', v') :: setitem k v d'
  end.

Fixpoint get {V} (k : string) (d : list (string * V)) : option V :=
  match d with
  | [] => None
  | (k', v) :: d' => if String.eqb k k' then Some v else get k d'
  end.

Definition keys {V} (d : list (string * V)) : list string := map fst d.

End PyDict.

(** ** The main recipe, [src/conanfile.py] *)

Module NahConan.

(** A Python [str]: its sequence of code points. *)
Definition pystr : Type := list Z.

(** The [str] of an ASCII literal. *)
Definition pystr_of_string (s : string) : pystr :=
  map (fun a => Z.of_nat (nat_of_ascii a)) (list_ascii_of_string s).

(** Python's [str.isspace] on one code point ([Py_UNICODE_ISSPACE]): the
    ASCII separators 9-13 and 28-32, and U+0085, U+00A0, U+1680,
    U+2000-U+200A, U+2028, U+2029, U+202F, U+205F and U+3000. *)
Definition py_isspace (c : Z) : bool :=
  (Z.leb 9 c && Z.leb c 13) || (Z.leb 28 c && Z.leb c 32)
  || Z.eqb c 133 || Z.eqb c 160 || Z.eqb c 5760
  || (Z.leb 8192 c && Z.leb c 8202)
  || Z.eqb c 8232 || Z.eqb c 8233 || Z.eqb c 8239 || Z.eqb c 8287
  || Z.eqb c 12288.

Fixpoint lstrip_chars (l : pystr) : pystr :=
  match l with
  | [] => []
  | c :: l' => if py_isspace c then lstrip_chars l' else l
  end.

(** [s.strip()] *)
Definition strip (s : pystr) : pystr :=
  rev (lstrip_chars (rev (lstrip_chars s))).

Fixpoint rfind_slash_aux (i : nat) (l : list ascii) (acc : option nat)
  : option nat :=
  match l with
  | [] => acc
  | c :: l' =>
      rfind_slash_aux (S i) l' (if Ascii.eqb c "/"%char then Some i else acc)
  end.

Fixpoint all_slashes (l : list ascii) : bool :=
  match l with
  | [] => true
  | c :: l' => Ascii.eqb c "/"%char && all_slashes l'
  end.

(** [posixpath.dirname]: the text up to the last ['/'], with trailing
    slashes removed unless it consists of slashes only. *)
Definition dirname (p : string) : string :=
  let l := list_ascii_of_string p in
  match rfind_slash_aux 0 l None with
  | None => ""
  | Some i =>
      let head := firstn (S i) l in
      if all_slashes head then string_of_list_ascii head
      else string_of_list_ascii
             (rev (let fix drop l :=
                     match l with
                     | c :: l' => if Ascii.eqb c "/"%char then drop l' else l
                     | [] => []
                     end in drop (rev head)))
  end.

(** [posixpath.join(a, b)] for a relative [b]. *)
Definition path_join (a b : string) : string :=
  if String.eqb a "" then b
  else match rev (list_ascii_of_string a) with
       | c :: _ => if Ascii.eqb c "/"%char then a ++ b else a ++ "/" ++ b
       | [] => b
       end.

(** [posixpath.join(a, b)]: an absolute [b] replaces [a]. *)
Definition posix_join (a b : string) : string :=
  match list_ascii_of_string b with
  | c :: _ => if Ascii.eqb c "/"%char then b else path_join a b
  | [] => path_join a b
  end.

(** The host's [os.path] module, as far as [get_version] uses it: Python
    binds it to [posixpath] on POSIX hosts and to [ntpath] on Windows. *)
Record OsPath := mkOsPath {
  os_dirname : string -> string;
  os_join : string -> string -> string
}.

Definition posixpath : OsPath := mkOsPath dirname posix_join.

(** [os.path.join(os.path.dirname(__file__), "VERSION")] *)
Definition version_path (ospath : OsPath) (file : string) : string :=
  os_join ospath (os_dirname ospath file) "VERSION".

(** [get_version()] on a host whose [os.path] is [ospath]; [load] is
    [conan.tools.files.load]: the file read and decoded as UTF-8 into a
    [str], [None] when that raises (missing file, permission or decoding
    error). *)
Definition get_version (ospath : OsPath) (load : string -> option pystr)
    (file : string) : pystr :=
  match load (os_join ospath (os_dirname ospath file) "VERSION") with
  | Some contents => strip contents
  | None => pystr_of_string "1.0.0"
  end.

(** The class attribute [version = get_version()]. *)
Definition version (ospath : OsPath) (load : string -> option pystr)
    (file : string) : pystr := get_version ospath load file.

(** Options: [fPIC] is [None] once it has been removed. *)
Record Options := mkOptions { shared : bool; fPIC : option bool }.

Definition default_options : Options := mkOptions false (Some true).

Definition config_options (os : string) (o : Options) : Options :=
  if String.eqb os "Windows" then mkOptions (shared o) None else o.

Definition rm_safe_fPIC (o : Options) : Options := mkOptions (shared o) None.

Definition configure (o : Options) : Options :=
  if shared o then rm_safe_fPIC o else o.

Definition get_safe_fPIC (o : Options) (default : bool) : bool :=
  match fPIC o with Some b => b | None => default end.

Inductive TcValue := VBool (b : bool) | VStr (s : string).

(** [generate()]: the toolchain variables it sets, in order. *)
Definition generate (os : string) (o : Options) : list (string * TcValue) :=
  let v := PyDict.setitem "NAH_ENABLE_TESTS" (VBool false) [] in
  let v := PyDict.setitem "NAH_ENABLE_TOOLS" (VBool false) v in
  let v := PyDict.setitem "NAH_INSTALL" (VBool false) v in
  let v := PyDict.setitem "NAH_BUILD_SHARED" (VBool (shared o)) v in
  if negb (String.eqb os "Windows") then
    PyDict.setitem "CMAKE_POSITION_INDEPENDENT_CODE"
      (VBool (get_safe_fPIC o true || shared o)) v
  else v.

(** The option pipeline Conan runs before [generate]. *)
Definition configured (os : string) (o : Options) : Options :=
  configure (config_options os o).

(** [requirements()] *)
Definition requirements : list string :=
  ["nlohmann_json/3.11.3"; "tomlplusplus/3.4.0"; "zlib/1.3.1";
   "openssl/3.2.1"; "libcurl/8.6.0"].

(** [self.cpp_info] and its components. *)
Record Component := mkComponent { c_libs : list string; c_requires : list string }.

Definition empty_component : Component := mkComponent [] [].

Record CppInfo := mkCppInfo {
  libs : list string;
  defines : list string;
  components : list (string * Component)
}.

Definition empty_cpp_info : CppInfo := mkCppInfo [] [] [].

(** [self.cpp_info.components[name]]: created empty on first access. *)
Definition component (ci : CppInfo) (name : string) : Component :=
  match PyDict.get name (components ci) with
  | Some c => c
  | None => empty_component
  end.

(** [self.cpp_info.components[name].libs = l] *)
Definition set_libs (name : string) (l : list string) (ci : CppInfo) : CppInfo :=
  let c := component ci name in
  mkCppInfo (libs ci) (defines ci)
    (PyDict.setitem name (mkComponent l (c_requires c)) (components ci)).

(** [self.cpp_info.components[name].requires = r] *)
Definition set_requires (name : string) (r : list string) (ci : CppInfo) : CppInfo :=
  let c := component ci name in
  mkCppInfo (libs ci) (defines ci)
    (PyDict.setitem name (mkComponent (c_libs c) r) (components ci)).

(** [package_info()], statement by statement. *)
Definition package_info (os : string) (o : Options) : CppInfo :=
  if shared o then
    mkCppInfo ["nahhost"] ["NAH_SHARED"] []
  else
    let nahhost_lib :=
      if String.eqb os "Windows" then "nahhost_static" else "nahhost" in
    let ci := empty_cpp_info in
    let ci := set_libs "nahhost" [nahhost_lib] ci in
    let ci := set_requires "nahhost"
                ["nah_contract"; "nah_config"; "nah_platform";
                 "nah_packaging"; "nah_materializer"] ci in
    let ci := set_libs "nah_materializer" ["nah_materializer"] ci in
    let ci := set_requires "nah_materializer"
                ["nah_packaging"; "nah_platform";
                 "openssl::crypto"; "libcurl::libcurl"] ci in
    let ci := set_libs "nah_contract" ["nah_contract"] ci in
    let ci := set_requires "nah_contract"
                ["nah_manifest"; "nah_config"; "nah_platform";
                 "nlohmann_json::nlohmann_json";
                 "tomlplusplus::tomlplusplus"] ci in
    let ci := set_libs "nah_manifest" ["nah_manifest"] ci in
    let ci := set_libs "nah_config" ["nah_config"] ci in
    let ci := set_requires "nah_config" ["tomlplusplus::tomlplusplus"] ci in
    let ci := set_libs "nah_platform" ["nah_platform"] ci in
    let ci := set_libs "nah_packaging" ["nah_packaging"] ci in
    let ci := set_requires "nah_packaging"
                ["nah_manifest"; "nah_config"; "nah_platform";
                 "nah_contract"; "zlib::zlib"] ci in
    ci.

(** A requirement [pkg::comp] names a component of another package; a bare
    name is a component of this package. *)
Fixpoint has_scope (l : list ascii) : bool :=
  match l with
  | c1 :: ((c2 :: _) as l') =>
      (Ascii.eqb c1 ":"%char && Ascii.eqb c2 ":"%char) || has_scope l'
  | _ => false
  end.

Definition internal (r : string) : bool :=
  negb (has_scope (list_ascii_of_string r)).

(** The components of this package a component requires, when the
    component exists. *)
Definition component_deps (ci : CppInfo) (name : string)
  : option (list string) :=
  option_map (fun c => filter internal (c_requires c))
    (PyDict.get name (components ci)).

(** One edge of the dependency graph between components. *)
Definition edge (ci : CppInfo) (a b : string) : Prop :=
  exists c, PyDict.get a (components ci) = Some c
            /\ In b (c_requires c) /\ internal b = true.

(** Its transitive closure. *)
Inductive depends_on (ci : CppInfo) : string -> string -> Prop :=
| dep_edge a b : edge ci a b -> depends_on ci a b
| dep_trans a b c : edge ci a b -> depends_on ci b c -> depends_on ci a c.

Definition acyclic (ci : CppInfo) : Prop := forall x, ~ depends_on ci x x.

(** The library components of the static build. *)
Definition core_components : list string :=
  ["nah_manifest"; "nah_config"; "nah_platform"; "nah_packaging";
   "nah_materializer"; "nah_contract"].

(** The dependency graph as the design notes describe it: the manifest
    model and the package codec are leaves, the materializer depends on
    the codec, the contract composer on every other core component, and
    there is no cycle. *)
Definition design_graph (ci : CppInfo) : Prop :=
  component_deps ci "nah_manifest" = Some []
  /\ component_deps ci "nah_packaging" = Some []
  /\ depends_on ci "nah_materializer" "nah_packaging"
  /\ (forall x, In x core_components -> x <> "nah_contract" ->
                depends_on ci "nah_contract" x)
  /\ acyclic ci.

(** A component's own [requires] names a requirement. *)
Definition requires_dep (c : Component) (r : string) : bool :=
  existsb (String.eqb r) (c_requires c).

Definition links_tls_http (c : Component) : bool :=
  requires_dep c "openssl::crypto" || requires_dep c "libcurl::libcurl".

(** The materializer component links both the crypto and the HTTP
    transport libraries, and it is the only component that names either. *)
Definition only_materializer_links_tls (ci : CppInfo) : Prop :=
  (exists c, PyDict.get "nah_materializer" (components ci) = Some c
             /\ requires_dep c "openssl::crypto" = true
             /\ requires_dep c "libcurl::libcurl" = true)
  /\ (forall n c, In (n, c) (components ci) -> links_tls_http c = true ->
                  n = "nah_materializer").

(** [conan.tools.files.copy(self, pattern, src, dst, keep_path=...)]: one
    call of [package()]; [keep_path] defaults to [True]. *)
Record CopyCall := mkCopy {
  cp_pattern : string;
  cp_src : string;
  cp_dst : string;
  cp_keep_path : bool
}.

(** [package()]: the [copy] calls it makes, in order. *)
Definition package (o : Options) (source_folder build_folder package_folder : string)
  : list CopyCall :=
  [mkCopy "LICENSE" source_folder (path_join package_folder "licenses") true;
   mkCopy "*.hpp" (path_join source_folder "include")
     (path_join package_folder "include") true;
   mkCopy "*.h" (path_join source_folder "include")
     (path_join package_folder "include") true;
   mkCopy "*.hpp"
     (path_join (path_join (path_join build_folder "_deps") "cpp-semver-src")
        "include")
     (path_join package_folder "include") true;
   mkCopy "*.a" build_folder (path_join package_folder "lib") false;
   mkCopy "*.lib" build_folder (path_join package_folder "lib") false]
  ++ (if shared o then
        [mkCopy "*.so*" build_folder (path_join package_folder "lib") false;
         mkCopy "*.dylib" build_folder (path_join package_folder "lib") false;
         mkCopy "*.dll" build_folder (path_join package_folder "bin") false]
      else [])%list.

(** The package a scoped requirement [pkg::comp] names. *)
Fixpoint scope_prefix (l : list ascii) : option (list ascii) :=
  match l with
  | c1 :: ((c2 :: _) as l') =>
      if Ascii.eqb c1 ":"%char && Ascii.eqb c2 ":"%char then Some []
      else option_map (cons c1) (scope_prefix l')
  | _ => None
  end.

Definition scope_of (r : string) : option string :=
  option_map string_of_list_ascii (scope_prefix (list_ascii_of_string r)).

(** The package name of a reference [name/version]. *)
Fixpoint ref_name_aux (l : list ascii) : list ascii :=
  match l with
  | [] => []
  | c :: l' => if Ascii.eqb c "/"%char then [] else c :: ref_name_aux l'
  end.

Definition ref_name (ref : string) : string :=
  string_of_list_ascii (ref_name_aux (list_ascii_of_string ref)).

(** Whether a scoped requirement names a package of [requirements()]. *)
Definition required_package (r : string) : bool :=
  match scope_of r with
  | Some p => existsb (fun ref => String.eqb p (ref_name ref)) requirements
  | None => false
  end.

(** Text predicates used in statements about paths and versions. *)
Definition has_slash (s : string) : bool :=
  existsb (fun c => Ascii.eqb c "/"%char) (list_ascii_of_string s).

Definition ends_with_slash (s : string) : bool :=
  match rev (list_ascii_of_string s) with
  | c :: _ => Ascii.eqb c "/"%char
  | [] => false
  end.

(** Neither the first nor the last character is whitespace. *)
Definition edge_space_free (s : pystr) : bool :=
  match s, rev s with
  | c :: _, d :: _ => negb (py_isspace c) && negb (py_isspace d)
  | _, _ => true
  end.

End NahConan.

(** ** The example SDK recipe, [src/examples/conan-sdk/conanfile.py] *)

Module GameEngineSDK.

Definition name : string := "gameengine".
Definition version : string := "1.0.0".

(** Values given to [set_property]: a string, a list of strings or a
    dictionary from strings to strings. *)
Inductive PropValue :=
| PStr (s : string)
| PList (l : list string)
| PDict (d : list (string * string)).

(** The parts of [self.cpp_info] that [package_info] writes. *)
Record SdkCppInfo := mkSdkCppInfo {
  libs : list string;
  includedirs : list string;
  properties : list (string * PropValue)
}.

Definition empty_cpp_info : SdkCppInfo := mkSdkCppInfo [] [] [].

Definition set_libs (l : list string) (ci : SdkCppInfo) : SdkCppInfo :=
  mkSdkCppInfo l (includedirs ci) (properties ci).

Definition set_includedirs (l : list string) (ci : SdkCppInfo) : SdkCppInfo :=
  mkSdkCppInfo (libs ci) l (properties ci).

(** [self.cpp_info.set_property(k, v)]: properties are kept by name. *)
Definition set_property (k : string) (v : PropValue) (ci : SdkCppInfo)
  : SdkCppInfo :=
  mkSdkCppInfo (libs ci) (includedirs ci) (PyDict.setitem k v (properties ci)).

(** [GameEngineSDK.package_info()], statement by statement. *)
Definition package_info : SdkCppInfo :=
  let ci := empty_cpp_info in
  let ci := set_libs ["gameengine"] ci in
  let ci := set_includedirs ["include"] ci in
  let ci := set_property "nah:nak_id" (PStr "com.example.gameengine") ci in
  let ci := set_property "nah:loader_exec" (PStr "bin/engine-loader") ci in
  let ci := set_property "nah:loader_args"
              (PList ["--app-entry"; "{NAH_APP_ENTRY}";
                      "--app-root"; "{NAH_APP_ROOT}";
                      "--app-id"; "{NAH_APP_ID}";
                      "--engine-root"; "{NAH_NAK_ROOT}"]) ci in
  let ci := set_property "nah:resource_root" (PStr "resources") ci in
  let ci := set_property "nah:cwd" (PStr "{NAH_APP_ROOT}") ci in
  let ci := set_property "nah:environment"
              (PDict [("GAMEENGINE_VERSION", version);
                      ("GAMEENGINE_LOG_LEVEL", "info")]) ci in
  ci.

(** [GameEngineSDK.package()]: the [copy] calls it makes, in order. *)
Definition package (source_folder build_folder package_folder : string)
  : list NahConan.CopyCall :=
  let join := NahConan.path_join in
  let copy := NahConan.mkCopy in
  [copy "*.h" (join source_folder "include") (join package_folder "include") true;
   copy "*.hpp" (join source_folder "include") (join package_folder "include") true;
   copy "*.a" build_folder (join package_folder "lib") false;
   copy "*.so*" build_folder (join package_folder "lib") false;
   copy "*.dylib" build_folder (join package_folder "lib") false;
   copy "engine-loader" build_folder (join package_folder "bin") false;
   copy "engine-loader.exe" build_folder (join package_folder "bin") false;
   copy "*" (join source_folder "resources") (join package_folder "resources")
     true].

End GameEngineSDK.

(** ** Shared vocabulary of the core components *)

(** Results of fallible operations. *)
Inductive result (A E : Type) : Type :=
| Ok (a : A)
| Err (e : E).
Arguments Ok {A E} a.
Arguments Err {A E} e.

(** A three-way comparison that is a total order. *)
Record CmpOrder {A : Type} (cmp : A -> A -> comparison) : Prop := {
  cmp_eq : forall x y, cmp x y = Eq -> x = y;
  cmp_antisym : forall x y, cmp y x = CompOpp (cmp x y);
  cmp_trans : forall x y z c, cmp x y = c -> cmp y z = c -> cmp x z = c
}.

(** Lexicographic comparison; a proper prefix is smaller. *)
Fixpoint lex {A} (cmp : A -> A -> comparison) (xs ys : list A) : comparison :=
  match xs, ys with
  | [], [] => Eq
  | [], _ :: _ => Lt
  | _ :: _, [] => Gt
  | x :: xs', y :: ys' =>
      match cmp x y with
      | Eq => lex cmp xs' ys'
      | c => c
      end
  end.

Definition then_cmp (c : comparison) (k : comparison) : comparison :=
  match c with Eq => k | _ => c end.

(** ** Version resolver *)

(** Modelled from the spec: the Version Resolver (spec 4.3), whose C++
    source is not part of the recipes.  Versions carry major, minor, patch
    and pre-release identifiers; precedence follows semantic versioning:
    the numeric triple first, then pre-release identifiers (numeric ones
    numerically and below alphanumeric ones, alphanumeric ones lexically in
    ASCII, a longer list above its prefix), a version without pre-release
    above the same triple with one. *)
Module Resolver.

Inductive Ident := Num (n : nat) | Alnum (s : string).

Record SemVer := mkSemVer {
  major : nat; minor : nat; patch : nat; pre : list Ident
}.

Definition v3 (a b c : nat) : SemVer := mkSemVer a b c [].

Definition ident_compare (a b : Ident) : comparison :=
  match a, b with
  | Num x, Num y => Nat.compare x y
  | Num _, Alnum _ => Lt
  | Alnum _, Num _ => Gt
  | Alnum x, Alnum y => String.compare x y
  end.

Definition pre_compare (p q : list Ident) : comparison :=
  match p, q with
  | [], [] => Eq
  | [], _ :: _ => Gt
  | _ :: _, [] => Lt
  | _, _ => lex ident_compare p q
  end.

(** Semver precedence. *)
Definition compare (v w : SemVer) : comparison :=
  then_cmp (Nat.compare (major v) (major w))
    (then_cmp (Nat.compare (minor v) (minor w))
       (then_cmp (Nat.compare (patch v) (patch w))
          (pre_compare (pre v) (pre w)))).

(** Range expressions: comparators, caret and tilde ranges, and their
    intersection and union. *)
Inductive Range :=
| Exact (v : SemVer)
| Gte (v : SemVer)
| Gtr (v : SemVer)
| Lte (v : SemVer)
| Ltr (v : SemVer)
| Caret (v : SemVer)
| Tilde (v : SemVer)
| RAnd (r1 r2 : Range)
| ROr (r1 r2 : Range).

(** Exclusive upper bound of a caret range: [^1.2.3] is [<2.0.0],
    [^0.2.3] is [<0.3.0], [^0.0.3] is [<0.0.4]. *)
Definition caret_upper (v : SemVer) : SemVer :=
  match major v, minor v with
  | 0, 0 => v3 0 0 (S (patch v))
  | 0, m => v3 0 (S m) 0
  | M, _ => v3 (S M) 0 0
  end.

Definition is_lt (c : comparison) : bool :=
  match c with Lt => true | _ => false end.
Definition is_gt (c : comparison) : bool :=
  match c with Gt => true | _ => false end.
Definition is_eq (c : comparison) : bool :=
  match c with Eq => true | _ => false end.

Fixpoint satisfies (r : Range) (v : SemVer) : bool :=
  match r with
  | Exact w => is_eq (compare v w)
  | Gte w => negb (is_lt (compare v w))
  | Gtr w => is_gt (compare v w)
  | Lte w => negb (is_gt (compare v w))
  | Ltr w => is_lt (compare v w)
  | Caret w => negb (is_lt (compare v w)) && is_lt (compare v (caret_upper w))
  | Tilde w => negb (is_lt (compare v w))
               && is_lt (compare v (v3 (major w) (S (minor w)) 0))
  | RAnd r1 r2 => satisfies r1 v && satisfies r2 v
  | ROr r1 r2 => satisfies r1 v || satisfies r2 v
  end.

Record NakCandidate := mkCandidate {
  version : SemVer; source_uri : string; digest : Z
}.

Inductive ResolveError := NoMatch | AmbiguousSources.

(** [c] has the highest version among [l]. *)
Definition is_highest (l : list NakCandidate) (c : NakCandidate) : bool :=
  forallb (fun d => negb (is_gt (compare (version d) (version c)))) l.

(** Among the matching candidates, the one with the highest version;
    two candidates sharing the highest version are ambiguous. *)
Definition select_highest (matches : list NakCandidate)
  : result NakCandidate ResolveError :=
  match matches with
  | [] => Err NoMatch
  | _ =>
      match filter (is_highest matches) matches with
      | [c] => Ok c
      | _ => Err AmbiguousSources
      end
  end.

(** [resolve]: filter the candidates satisfying the range, then select. *)
Definition resolve (req : Range) (candidates : list NakCandidate)
  : result NakCandidate ResolveError :=
  select_highest (filter (fun c => satisfies req (version c)) candidates).

(** The candidates of the spec's example. *)
Definition candidate (a b c : nat) (d : Z) : NakCandidate :=
  mkCandidate (v3 a b c) "https://naks.example.com/engine" d.

Definition example_candidates : list NakCandidate :=
  [candidate 1 2 0 1; candidate 1 2 5 2; candidate 1 3 0 3;
   candidate 2 0 0 4].

End Resolver.

(** ** Package codec *)

(** Modelled from the spec: the Package Codec (spec 4.2 and 6), whose C++
    source is not part of the recipes.  The spec leaves the concrete
    encoding open; this model fixes one:
    - header: format tag (1 = NAP, 2 = NAK), format version 1, the manifest
      (32-bit big-endian length, bytes), the entry count, and per entry the
      relative path (length, bytes), the data length and the mode, all
      lengths and modes as 32-bit big-endian integers;
    - payload: the entries' data, concatenated in the order supplied and
      run-length compressed;
    - trailer: the Adler-32 checksum of header and compressed payload.
    [decode] checks the trailer before it reads any other byte, and rejects
    absolute paths and paths with a [..] component. *)
Module Codec.
Local Open Scope Z_scope.
Local Open Scope list_scope.

Definition bval (b : byte) : Z := Z.of_N (Byte.to_N b).

Definition byte_of_Z (z : Z) : byte :=
  match Byte.of_N (Z.to_N (z mod 256)) with
  | Some b => b
  | None => x00
  end.

(** 32-bit big-endian integers. *)
Definition u32_be (n : Z) : list byte :=
  map byte_of_Z [n / 256 / 256 / 256; n / 256 / 256; n / 256; n].

Definition be32 (l : list byte) : Z :=
  fold_left (fun acc b => acc * 256 + bval b) l 0.

Definition read_u32 (l : list byte) : option (Z * list byte) :=
  match l with
  | a :: b :: c :: d :: rest => Some (be32 [a; b; c; d], rest)
  | _ => None
  end.

Definition take (n : Z) (l : list byte) : option (list byte * list byte) :=
  if Nat.ltb (length l) (Z.to_nat n) then None
  else Some (firstn (Z.to_nat n) l, skipn (Z.to_nat n) l).

(** Adler-32. *)
Definition adler_mod : Z := 65521.

Definition adler_step (st : Z * Z) (x : byte) : Z * Z :=
  let a := (fst st + bval x) mod adler_mod in
  (a, (snd st + a) mod adler_mod).

Definition adler32 (l : list byte) : Z :=
  let st := fold_left adler_step l (1, 0) in
  snd st * 65536 + fst st.

(** Run-length compression: pairs of a count in 1..255 and a byte. *)
Fixpoint rle_run (cur : byte) (n : nat) (l : list byte) : list byte :=
  match l with
  | [] => [byte_of_Z (Z.of_nat n); cur]
  | b :: l' =>
      if Byte.eqb b cur && Nat.ltb n 255 then rle_run cur (S n) l'
      else byte_of_Z (Z.of_nat n) :: cur :: rle_run b 1 l'
  end.

Definition compress (l : list byte) : list byte :=
  match l with
  | [] => []
  | b :: l' => rle_run b 1 l'
  end.

Fixpoint decompress (l : list byte) : option (list byte) :=
  match l with
  | [] => Some []
  | c :: b :: rest =>
      if Z.eqb (bval c) 0 then None
      else match decompress rest with
           | Some t => Some (repeat b (Z.to_nat (bval c)) ++ t)
           | None => None
           end
  | [_] => None
  end.

(** Relative paths of entries. *)
Definition is_sep (c : ascii) : bool :=
  Ascii.eqb c "/"%char || Ascii.eqb c "\"%char.

Fixpoint split_components (cur : list ascii) (l : list ascii) : list string :=
  match l with
  | [] => [string_of_list_ascii (rev cur)]
  | c :: l' =>
      if is_sep c then string_of_list_ascii (rev cur) :: split_components [] l'
      else split_components (c :: cur) l'
  end.

Definition components (p : string) : list string :=
  split_components [] (list_ascii_of_string p).

(** Rooted ([/x], [\x]) or drive-qualified ([C:x]) paths. *)
Definition is_absolute (p : string) : bool :=
  match list_ascii_of_string p with
  | c :: l => is_sep c || match l with
                          | c2 :: _ => Ascii.eqb c2 ":"%char
                          | [] => false
                          end
  | [] => false
  end.

Definition has_parent_component (p : string) : bool :=
  existsb (String.eqb "..") (components p).

Definition safe_path (p : string) : bool :=
  negb (is_absolute p) && negb (has_parent_component p).

Inductive Format := NAP | NAK.

Definition format_tag (f : Format) : byte :=
  match f with NAP => x01 | NAK => x02 end.

Definition format_of_tag (b : byte) : option Format :=
  match b with x01 => Some NAP | x02 => Some NAK | _ => None end.

Record Entry := mkEntry { path : string; data : list byte; mode : Z }.

Record PackageArchive := mkArchive {
  format : Format; manifest_bytes : list byte; payload : list Entry
}.

Inductive PackageError :=
| TruncatedHeader
| UnsupportedFormatVersion
| DigestMismatch
| DecompressionFailed
| UnsafePath.

Definition len (l : list byte) : Z := Z.of_nat (length l).

Definition encode_entry_header (e : Entry) : list byte :=
  let pb := list_byte_of_string (path e) in
  u32_be (len pb) ++ pb ++ u32_be (len (data e)) ++ u32_be (mode e).

Definition header (fmt : Format) (man : list byte) (entries : list Entry)
  : list byte :=
  [format_tag fmt; x01] ++ u32_be (len man) ++ man
  ++ u32_be (Z.of_nat (length entries))
  ++ flat_map encode_entry_header entries.

(** [encode(format, manifest_bytes, payload_entries)] *)
Definition encode (fmt : Format) (man : list byte) (entries : list Entry)
  : list byte :=
  let body := header fmt man entries ++ compress (flat_map data entries) in
  body ++ u32_be (adler32 body).

(** The entry table: path, data length and mode. *)
Fixpoint parse_entries (count : nat) (l : list byte)
  : option (list (string * Z * Z) * list byte) :=
  match count with
  | O => Some ([], l)
  | S k =>
      match read_u32 l with
      | None => None
      | Some (plen, l) =>
        match take plen l with
        | None => None
        | Some (pb, l) =>
          match read_u32 l with
          | None => None
          | Some (dlen, l) =>
            match read_u32 l with
            | None => None
            | Some (m, l) =>
              match parse_entries k l with
              | None => None
              | Some (t, l) => Some ((string_of_list_byte pb, dlen, m) :: t, l)
              end
            end
          end
        end
      end
  end.

(** Cut the decompressed stream along the table. *)
Fixpoint split_data (table : list (string * Z * Z)) (stream : list byte)
  : option (list Entry) :=
  match table with
  | [] => match stream with [] => Some [] | _ => None end
  | (p, dlen, m) :: t =>
      match take dlen stream with
      | None => None
      | Some (d, rest) =>
          match split_data t rest with
          | None => None
          | Some es => Some (mkEntry p d m :: es)
          end
      end
  end.

Definition split_trailer (s : list byte) : option (list byte * list byte) :=
  let n := length s in
  if Nat.ltb n 4 then None else Some (firstn (n - 4)%nat s, skipn (n - 4)%nat s).

(** Everything after the digest check. *)
Definition parse_body (body : list byte)
  : result PackageArchive PackageError :=
  match body with
  | tag :: ver :: rest =>
    match format_of_tag tag with
    | None => Err UnsupportedFormatVersion
    | Some fmt =>
      if negb (Byte.eqb ver x01) then Err UnsupportedFormatVersion else
      match read_u32 rest with
      | None => Err TruncatedHeader
      | Some (mlen, rest) =>
        match take mlen rest with
        | None => Err TruncatedHeader
        | Some (man, rest) =>
          match read_u32 rest with
          | None => Err TruncatedHeader
          | Some (cnt, rest) =>
            match parse_entries (Z.to_nat cnt) rest with
            | None => Err TruncatedHeader
            | Some (table, compressed) =>
              if negb (forallb (fun '(p, _, _) => safe_path p) table)
              then Err UnsafePath else
              match decompress compressed with
              | None => Err DecompressionFailed
              | Some stream =>
                match split_data table stream with
                | None => Err DecompressionFailed
                | Some entries => Ok (mkArchive fmt man entries)
                end
              end
            end
          end
        end
      end
    end
  | _ => Err TruncatedHeader
  end.

(** [decode(byte stream)]: the trailer is verified first. *)
Definition decode (s : list byte) : result PackageArchive PackageError :=
  match split_trailer s with
  | None => Err TruncatedHeader
  | Some (body, trailer) =>
      if negb (Z.eqb (adler32 body) (be32 trailer)) then Err DigestMismatch
      else parse_body body
  end.

(** Replace the byte at position [i] (unchanged out of range). *)
Fixpoint set_nth {A} (i : nat) (x : A) (l : list A) : list A :=
  match l, i with
  | [], _ => []
  | _ :: l', O => x :: l'
  | y :: l', S i' => y :: set_nth i' x l'
  end.

(** The entry table [encode] writes, one row per entry. *)
Definition table_of (es : list Entry) : list (string * Z * Z) :=
  map (fun e => (path e, len (data e), mode e)) es.

Definition example_manifest : list byte := list_byte_of_string "id=engine".

Definition bytes (s : string) : list byte := list_byte_of_string s.

End Codec.

(** ** Materializer *)

(** Modelled from the spec: the Materializer (spec 4.4), whose C++ source
    is not part of the recipes.  The cache is the set of keys
    [(nak_id, version, digest)] whose directory carries the completed
    marker.  The network is a function from the attempt number to the
    bytes received, [None] for a transport failure; every request is
    recorded as an event together with the transport it used, and the
    waits between attempts double.  The candidate's integrity digest is
    taken to be the Adler-32 sum of the archive bytes. *)
Module Materializer.

Import Resolver.

Inductive Transport := Plain | Tls.

Inductive NetEvent :=
| Fetch (t : Transport) (uri : string)
| Sleep (ms : nat).

Inductive MaterializeError :=
| FetchFailed
| DigestMismatch
| ExtractFailed
| CacheCorrupt.

Record MaterializedNak := mkMaterialized {
  m_version : SemVer;
  root_path : string;
  m_digest : Z;
  cached : bool
}.

Definition CacheKey : Type := string * SemVer * Z.

Definition key_eqb (a b : CacheKey) : bool :=
  let '(i, v, d) := a in
  let '(i', v', d') := b in
  String.eqb i i' && is_eq (compare v v') && Z.eqb d d'.

Definition in_cache (k : CacheKey) (cache : list CacheKey) : bool :=
  existsb (key_eqb k) cache.

(** Decimal digits, for the directory names. *)
Fixpoint digits_aux (fuel : nat) (n : Z) (acc : string) : string :=
  match fuel with
  | O => acc
  | S f =>
      let acc' := String (ascii_of_nat (48 + Z.to_nat (n mod 10))) acc in
      if (n <? 10)%Z then acc' else digits_aux f (n / 10)%Z acc'
  end.

Definition z_str (n : Z) : string :=
  digits_aux (S (Z.to_nat (Z.log2 (Z.abs n)))) (Z.abs n) "".

Definition nat_str (n : nat) : string := z_str (Z.of_nat n).

Definition ident_str (i : Ident) : string :=
  match i with Num n => nat_str n | Alnum s => s end.

Fixpoint join (sep : string) (l : list string) : string :=
  match l with
  | [] => ""
  | [x] => x
  | x :: l' => x ++ sep ++ join sep l'
  end.

Definition version_str (v : SemVer) : string :=
  nat_str (major v) ++ "." ++ nat_str (minor v) ++ "." ++ nat_str (patch v)
  ++ match pre v with [] => "" | p => "-" ++ join "." (map ident_str p) end.

(** Step 1: the content-addressed cache path. *)
Definition cache_path (cache_root : string) (k : CacheKey) : string :=
  let '(i, v, d) := k in
  cache_root ++ "/" ++ i ++ "/" ++ version_str v ++ "/" ++ z_str d.

(** Step 3: bounded attempts with doubling waits between them. *)
Definition max_attempts : nat := 5.
Definition backoff_base_ms : nat := 100.

Fixpoint fetch_attempts (net : nat -> option (list byte)) (uri : string)
    (n k : nat) : list NetEvent * option (list byte) :=
  match k with
  | O => ([], None)
  | S k' =>
      match net n with
      | Some b => ([Fetch Tls uri], Some b)
      | None =>
          match k' with
          | O => ([Fetch Tls uri], None)
          | _ =>
              let '(evs, r) := fetch_attempts net uri (S n) k' in
              (Fetch Tls uri :: Sleep (backoff_base_ms * 2 ^ n) :: evs, r)
          end
      end
  end.

Definition fetch_with_retry (net : nat -> option (list byte)) (uri : string)
  : list NetEvent * option (list byte) :=
  fetch_attempts net uri 0 max_attempts.

(** [materialize]: the result, the cache afterwards and the network
    events, in order. *)
Definition materialize (net : nat -> option (list byte))
    (nak_id cache_root : string) (c : NakCandidate) (cache : list CacheKey)
  : result MaterializedNak MaterializeError * list CacheKey * list NetEvent :=
  let k := (nak_id, version c, digest c) in
  let root := cache_path cache_root k in
  if in_cache k cache then
    (Ok (mkMaterialized (version c) root (digest c) true), cache, [])
  else
    let '(evs, r) := fetch_with_retry net (source_uri c) in
    match r with
    | None => (Err FetchFailed, cache, evs)
    | Some b =>
        if negb (Z.eqb (Codec.adler32 b) (digest c)) then
          (Err DigestMismatch, cache, evs)
        else
          match Codec.decode b with
          | Err _ => (Err ExtractFailed, cache, evs)
          | Ok _ =>
              (Ok (mkMaterialized (version c) root (digest c) false),
               k :: cache, evs)
          end
    end.

Fixpoint fetch_count (evs : list NetEvent) : nat :=
  match evs with
  | [] => 0
  | Fetch _ _ :: evs' => S (fetch_count evs')
  | Sleep _ :: evs' => fetch_count evs'
  end.

End Materializer.

(** ** Contract composer *)

(** Modelled from the spec: the Contract Composer (spec 4.5), whose C++
    source is not part of the recipes.  The loader template comes from the
    package's published properties, read by their [nah:] names; where the
    spec leaves a missing property open, the model runs the entry point
    from the application root with no arguments and no extra environment.
    A placeholder is the text between a [{] and the next [}]; an unclosed
    [{] is kept as text. *)
Module Composer.

Import GameEngineSDK Materializer.

Record Manifest := mkManifest {
  app_id : string;
  entry : string;
  platforms : list string
}.

Record Platform := mkPlatform {
  host_os : string;
  app_root : string
}.

Record LaunchContract := mkContract {
  executable_path : string;
  arguments : list string;
  environment : list (string * string);
  working_directory : string;
  nak_root : option string
}.

Inductive ContractError := UnresolvedVariable | IncompatiblePlatform.

(** The template variables, in lookup order. *)
Definition template_vars (m : Manifest) (p : Platform)
    (nak : option MaterializedNak) (config : list (string * string))
  : list (string * string) :=
  [("NAH_APP_ENTRY", entry m); ("NAH_APP_ROOT", app_root p);
   ("NAH_APP_ID", app_id m)]
  ++ match nak with
     | Some n => [("NAH_NAK_ROOT", root_path n)]
     | None => []
     end
  ++ config.

(** Substitution of [{VAR}]; [inside] holds the reversed name read so
    far after an opening brace. *)
Fixpoint subst_go (vars : list (string * string))
    (inside : option (list ascii)) (l : list ascii) : option (list ascii) :=
  match l with
  | [] =>
      match inside with
      | None => Some []
      | Some acc => Some ("{"%char :: rev acc)
      end
  | c :: r =>
      match inside with
      | None =>
          if Ascii.eqb c "{"%char then subst_go vars (Some []) r
          else match subst_go vars None r with
               | Some r' => Some (c :: r')
               | None => None
               end
      | Some acc =>
          if Ascii.eqb c "}"%char then
            match PyDict.get (string_of_list_ascii (rev acc)) vars with
            | Some v =>
                match subst_go vars None r with
                | Some r' => Some (app (list_ascii_of_string v) r')
                | None => None
                end
            | None => None
            end
          else subst_go vars (Some (c :: acc)) r
      end
  end.

Definition subst (vars : list (string * string)) (s : string)
  : option string :=
  option_map string_of_list_ascii
    (subst_go vars None (list_ascii_of_string s)).

(** The placeholder names of a template, in order. *)
Fixpoint placeholders_go (inside : option (list ascii)) (l : list ascii)
  : list string :=
  match l with
  | [] => []
  | c :: r =>
      match inside with
      | None =>
          if Ascii.eqb c "{"%char then placeholders_go (Some []) r
          else placeholders_go None r
      | Some acc =>
          if Ascii.eqb c "}"%char then
            string_of_list_ascii (rev acc) :: placeholders_go None r
          else placeholders_go (Some (c :: acc)) r
      end
  end.

Definition placeholders (s : string) : list string :=
  placeholders_go None (list_ascii_of_string s).

Fixpoint subst_list (vars : list (string * string)) (l : list string)
  : option (list string) :=
  match l with
  | [] => Some []
  | s :: l' =>
      match subst vars s, subst_list vars l' with
      | Some s', Some l'' => Some (s' :: l'')
      | _, _ => None
      end
  end.

Fixpoint subst_env (vars : list (string * string))
    (env : list (string * string)) : option (list (string * string)) :=
  match env with
  | [] => Some []
  | (k, s) :: env' =>
      match subst vars s, subst_env vars env' with
      | Some s', Some e' => Some ((k, s') :: e')
      | _, _ => None
      end
  end.


Definition loader_exec_of (props : list (string * PropValue)) : string :=
  match PyDict.get "nah:loader_exec" props with
  | Some (PStr s) => s
  | _ => "{NAH_APP_ENTRY}"
  end.

Definition loader_args_of (props : list (string * PropValue)) : list string :=
  match PyDict.get "nah:loader_args" props with
  | Some (PList l) => l
  | _ => []
  end.

Definition cwd_of (props : list (string * PropValue)) : string :=
  match PyDict.get "nah:cwd" props with
  | Some (PStr s) => s
  | _ => "{NAH_APP_ROOT}"
  end.

Definition environment_of (props : list (string * PropValue))
  : list (string * string) :=
  match PyDict.get "nah:environment" props with
  | Some (PDict d) => d
  | _ => []
  end.

(** Every placeholder of the template the composer substitutes. *)
Definition template_placeholders (props : list (string * PropValue))
  : list string :=
  placeholders (loader_exec_of props)
  ++ flat_map placeholders (loader_args_of props)
  ++ placeholders (cwd_of props)
  ++ flat_map (fun kv => placeholders (snd kv)) (environment_of props).

Definition platform_ok (m : Manifest) (p : Platform) : bool :=
  match platforms m with
  | [] => true
  | l => existsb (String.eqb (host_os p)) l
  end.

(** [compose]. *)
Definition compose (m : Manifest) (config : list (string * string))
    (p : Platform) (nak : option MaterializedNak)
    (props : list (string * PropValue))
  : result LaunchContract ContractError :=
  if negb (platform_ok m p) then Err IncompatiblePlatform
  else
    let vars := template_vars m p nak config in
    match subst vars (loader_exec_of props),
          subst_list vars (loader_args_of props),
          subst vars (cwd_of props),
          subst_env vars (environment_of props) with
    | Some e, Some a, Some w, Some env =>
        Ok (mkContract e a env w (option_map root_path nak))
    | _, _, _, _ => Err UnresolvedVariable
    end.

(** The spec's composition example. *)
Definition example_manifest : Manifest :=
  mkManifest "com.example.app" "run" [].

Definition example_platform : Platform :=
  mkPlatform "linux" "/apps/com.example.app".

Definition example_nak : MaterializedNak :=
  mkMaterialized (Resolver.v3 1 0 0) "/naks/engine/1.0.0" 0 false.


End Composer.

(** * Proofs *)

Module NahConanProofs.
Import NahConan.

Lemma get_In {V} (k : string) (v : V) d :
  PyDict.get k d = Some v -> In (k, v) d.
Proof.
  induction d as [|[k' v'] d IH]; simpl; [discriminate|].
  destruct (String.eqb_spec k k') as [->|_]; intros H.
  - injection H as <-. now left.
  - right. now apply IH.
Qed.

(** Components below others in the static graph get a lower rank. *)
Definition rank (n : string) : nat :=
  if String.eqb n "nahhost" then 4
  else if String.eqb n "nah_materializer" then 3
  else if String.eqb n "nah_packaging" then 2
  else if String.eqb n "nah_contract" then 1
  else 0.

Lemma static_edge_rank os o a b :
  shared o = false -> edge (package_info os o) a b -> rank b < rank a.
Proof.
  intros Hs [c [Hg [Hin Hint]]].
  apply get_In in Hg. unfold package_info in Hg. rewrite Hs in Hg.
  cbn in Hg.
  repeat match goal with
  | H : _ \/ _ |- _ => destruct H
  | H : (_, _) = (_, _) |- _ => injection H as <- <-
  | H : False |- _ => destruct H
  end; cbn in Hin;
  repeat match goal with
  | H : _ \/ _ |- _ => destruct H as [<-|H]
  | H : False |- _ => destruct H
  end; cbn in *; try discriminate; lia.
Qed.

Lemma static_depends_rank os o a b :
  shared o = false -> depends_on (package_info os o) a b -> rank b < rank a.
Proof.
  intros Hs H. induction H as [a b He|a b c He _ IH].
  - now apply (static_edge_rank os o).
  - pose proof (static_edge_rank os o a b Hs He). lia.
Qed.

Lemma static_acyclic os o : shared o = false -> acyclic (package_info os o).
Proof.
  intros Hs x Hx. pose proof (static_depends_rank os o x x Hs Hx). lia.
Qed.

Lemma static_edge_intro os o a b :
  shared o = false ->
  (exists c, PyDict.get a (components (package_info os o)) = Some c
             /\ In b (c_requires c) /\ internal b = true) ->
  depends_on (package_info os o) a b.
Proof. intros _ H. now apply dep_edge. Qed.

(** C1 (as stated): the design-notes graph is not the one the recipe
    declares; in the static Linux build the package codec requires the
    contract composer, so it is no leaf. *)
Lemma C1_design_graph_fails :
  ~ design_graph (package_info "Linux" default_options).
Proof.
  intros [_ [Hpk _]]. vm_compute in Hpk. discriminate Hpk.
Qed.

(** C1 (amended): in every static build the manifest model, the config
    layer and the platform layer are leaves; the contract composer
    depends on exactly those three; the package codec on those three and
    the contract composer; the materializer on the package codec and the
    platform layer; and the component graph has no cycle. *)
Theorem C1_static_component_graph (os : string) (o : Options)
    (Hstatic : shared o = false) :
  let ci := package_info os o in
  component_deps ci "nah_manifest" = Some []
  /\ component_deps ci "nah_config" = Some []
  /\ component_deps ci "nah_platform" = Some []
  /\ component_deps ci "nah_contract" =
       Some ["nah_manifest"; "nah_config"; "nah_platform"]
  /\ component_deps ci "nah_packaging" =
       Some ["nah_manifest"; "nah_config"; "nah_platform"; "nah_contract"]
  /\ component_deps ci "nah_materializer" =
       Some ["nah_packaging"; "nah_platform"]
  /\ depends_on ci "nah_materializer" "nah_packaging"
  /\ acyclic ci.
Proof.
  cbv zeta.
  repeat split; try (unfold package_info; rewrite Hstatic; reflexivity).
  - apply dep_edge. unfold edge, package_info. rewrite Hstatic.
    eexists. split; [reflexivity|]. split; [cbn; now left|reflexivity].
  - now apply static_acyclic.
Qed.

Lemma C1_static_component_graph_witness :
  shared default_options = false
  /\ acyclic (package_info "Linux" default_options).
Proof.
  split; [reflexivity|].
  exact (proj2 (proj2 (proj2 (proj2 (proj2 (proj2 (proj2
           (C1_static_component_graph "Linux" default_options eq_refl)))))))).
Defined.

(** ** [get_version] *)

Lemma lstrip_chars_nil l :
  lstrip_chars l = [] <-> forallb py_isspace l = true.
Proof.
  induction l as [|c l IH]; simpl; [tauto|].
  destruct (py_isspace c); simpl; [exact IH|].
  split; discriminate.
Qed.

Lemma lstrip_chars_head l c r :
  lstrip_chars l = c :: r -> py_isspace c = false.
Proof.
  induction l as [|c' l IH]; simpl; [discriminate|].
  destruct (py_isspace c') eqn:E; [exact IH|].
  intros H. injection H as -> _. exact E.
Qed.

Lemma forallb_rev {A} (f : A -> bool) l :
  forallb f (rev l) = forallb f l.
Proof.
  apply eq_true_iff_eq. rewrite !forallb_forall.
  split; intros H x Hx; apply H.
  - apply in_rev. rewrite rev_involutive. exact Hx.
  - apply in_rev in Hx. exact Hx.
Qed.

Lemma strip_empty s :
  strip s = [] <-> forallb py_isspace s = true.
Proof.
  unfold strip. rewrite <- lstrip_chars_nil.
  set (l := lstrip_chars s).
  split; intros H.
  - apply (f_equal (@rev Z)) in H. rewrite rev_involutive in H.
    apply lstrip_chars_nil in H. rewrite forallb_rev in H.
    destruct l as [|c r] eqn:El; [reflexivity|].
    apply lstrip_chars_head in El. simpl in H. rewrite El in H. discriminate.
  - rewrite H. reflexivity.
Qed.

(** C9 (as stated): the version is not always non-empty; a VERSION file
    holding only a newline, or only a no-break space (U+00A0), gives the
    empty version. *)
Lemma C9_empty_version :
  version posixpath (fun _ => Some [10%Z]) "/src/conanfile.py" = []
  /\ version posixpath (fun _ => Some [160%Z]) "/src/conanfile.py" = []
  /\ ~ (forall ospath load file, version ospath load file <> []).
Proof.
  split; [reflexivity|]. split; [reflexivity|].
  intros H. apply (H posixpath (fun _ => Some [10%Z]) "/src/conanfile.py").
  reflexivity.
Qed.

(** C9 (amended): on any host, [get_version] returns the stripped contents
    of the VERSION file next to the recipe when it can be read and "1.0.0"
    when reading raises; the version is empty exactly when VERSION is
    readable and holds only whitespace (in the sense of Python's
    [str.isspace]). *)
Theorem C9_get_version_spec (ospath : OsPath)
    (load : string -> option pystr) (file : string) :
  (load (version_path ospath file) = None ->
   version ospath load file = pystr_of_string "1.0.0")
  /\ (forall s, load (version_path ospath file) = Some s ->
                version ospath load file = strip s)
  /\ (version ospath load file = [] <->
      exists s, load (version_path ospath file) = Some s
                /\ forallb py_isspace s = true).
Proof.
  unfold version, get_version. fold (version_path ospath file).
  destruct (load (version_path ospath file)) as [s|] eqn:E.
  - split; [discriminate|]. split; [intros s' H; now injection H as ->|].
    rewrite strip_empty. split.
    + intros H. now exists s.
    + intros [s' [H1 H2]]. injection H1 as ->. exact H2.
  - split; [reflexivity|]. split; [discriminate|].
    split; [discriminate|]. intros [s' [H _]]. discriminate.
Qed.

Lemma C9_get_version_spec_witness :
  version posixpath (fun _ => None) "/src/conanfile.py"
  = pystr_of_string "1.0.0".
Proof.
  apply (proj1 (C9_get_version_spec posixpath (fun _ => None)
                  "/src/conanfile.py")).
  reflexivity.
Defined.

(** ** Options and [generate] *)

(** C10: after configuration [fPIC] is absent on Windows and in shared
    builds; on every other OS [generate] sets
    [CMAKE_POSITION_INDEPENDENT_CODE] to [shared or fPIC], hence to true
    whenever [shared] is set, [fPIC] is true, or [fPIC] was removed. *)
Theorem C10_fPIC_and_pic (os : string) (sh fp : bool) :
  let o := configured os (mkOptions sh (Some fp)) in
  (os = "Windows" -> fPIC o = None)
  /\ (sh = true -> fPIC o = None)
  /\ (os <> "Windows" ->
      PyDict.get "CMAKE_POSITION_INDEPENDENT_CODE" (generate os o)
      = Some (VBool (sh || fp)))
  /\ (os <> "Windows" ->
      (sh = true \/ fPIC o = Some true \/ fPIC o = None) ->
      PyDict.get "CMAKE_POSITION_INDEPENDENT_CODE" (generate os o)
      = Some (VBool true)).
Proof.
  cbv zeta. unfold configured, config_options, configure.
  destruct (String.eqb_spec os "Windows") as [->|Hne].
  - split; [intros _; now destruct sh|]. split; [intros ->; reflexivity|].
    split; intros H; now contradiction H.
  - split; [intros H; contradiction|].
    split; [intros ->; reflexivity|].
    assert (Hg : forall o', PyDict.get "CMAKE_POSITION_INDEPENDENT_CODE"
                              (generate os o')
                            = Some (VBool (get_safe_fPIC o' true || shared o'))).
    { intros o'. unfold generate.
      apply String.eqb_neq in Hne. rewrite Hne. reflexivity. }
    split; intros _; rewrite Hg; destruct sh, fp; cbn; try reflexivity.
    intros [H|[H|H]]; discriminate.
Qed.

Lemma C10_fPIC_and_pic_witness :
  PyDict.get "CMAKE_POSITION_INDEPENDENT_CODE"
    (generate "Linux" (configured "Linux" (mkOptions false (Some true))))
  = Some (VBool true).
Proof.
  apply (proj2 (proj2 (proj2 (C10_fPIC_and_pic "Linux" false true)))).
  - discriminate.
  - right. left. reflexivity.
Defined.

End NahConanProofs.


(** ** Orders used by the resolver *)

Module OrderProofs.

Lemma cmp_refl {A} (cmp : A -> A -> comparison) :
  CmpOrder cmp -> forall x, cmp x x = Eq.
Proof.
  intros O x. pose proof (cmp_antisym cmp O x x) as H.
  destruct (cmp x x); [reflexivity|discriminate|discriminate].
Qed.

Lemma nat_order : CmpOrder Nat.compare.
Proof.
  split.
  - intros x y. apply Nat.compare_eq_iff.
  - intros x y. apply Nat.compare_antisym.
  - intros x y z [] H1 H2.
    + rewrite Nat.compare_eq_iff in *. lia.
    + rewrite Nat.compare_lt_iff in *. lia.
    + rewrite Nat.compare_gt_iff in *. lia.
Qed.

Lemma ascii_order : CmpOrder Ascii.compare.
Proof.
  split.
  - apply Ascii.compare_eq_iff.
  - intros x y. apply Ascii.compare_antisym.
  - unfold Ascii.compare. intros x y z [] H1 H2.
    + rewrite N.compare_eq_iff in *. lia.
    + rewrite N.compare_lt_iff in *. lia.
    + rewrite N.compare_gt_iff in *. lia.
Qed.

Section Lex.
Context {A : Type} (cmp : A -> A -> comparison) (O : CmpOrder cmp).

Lemma lex_order : CmpOrder (lex cmp).
Proof.
  split.
  - induction x as [|a x IH]; destruct y as [|b y]; simpl;
      try discriminate; [reflexivity|].
    destruct (cmp a b) eqn:E; try discriminate.
    intros H. apply (cmp_eq cmp O) in E. f_equal; [exact E|]. now apply IH.
  - induction x as [|a x IH]; destruct y as [|b y]; simpl; try reflexivity.
    rewrite (cmp_antisym cmp O a b).
    destruct (cmp a b); simpl; [apply IH|reflexivity|reflexivity].
  - intros x. induction x as [|a x IH]; intros y z c H1 H2.
    + destruct y, z; simpl in *; congruence.
    + destruct y as [|b y]; [destruct z; simpl in *; congruence|].
      destruct z as [|d z]; [simpl in *; congruence|].
      simpl in *. destruct (cmp a b) eqn:E1.
      * apply (cmp_eq cmp O) in E1. subst b.
        destruct (cmp a d); [exact (IH _ _ _ H1 H2)|exact H2|exact H2].
      * subst c. destruct (cmp b d) eqn:E2; try discriminate.
        -- apply (cmp_eq cmp O) in E2. subst d. now rewrite E1.
        -- now rewrite (cmp_trans cmp O _ _ _ _ E1 E2).
      * subst c. destruct (cmp b d) eqn:E2; try discriminate.
        -- apply (cmp_eq cmp O) in E2. subst d. now rewrite E1.
        -- now rewrite (cmp_trans cmp O _ _ _ _ E1 E2).
Qed.

End Lex.

Lemma string_compare_lex s t :
  String.compare s t =
  lex Ascii.compare (list_ascii_of_string s) (list_ascii_of_string t).
Proof.
  revert t. induction s as [|a s IH]; destruct t as [|b t]; simpl;
    try reflexivity.
  destruct (Ascii.compare a b); [apply IH|reflexivity|reflexivity].
Qed.

Lemma string_order : CmpOrder String.compare.
Proof.
  pose proof (lex_order _ ascii_order) as L. split.
  - intros x y H. rewrite string_compare_lex in H.
    apply (cmp_eq _ L) in H.
    rewrite <- (string_of_list_ascii_of_string x), H.
    apply string_of_list_ascii_of_string.
  - intros x y. rewrite !string_compare_lex. apply (cmp_antisym _ L).
  - intros x y z c. rewrite !string_compare_lex. apply (cmp_trans _ L).
Qed.

Lemma then_cmp_order {A B} (ca : A -> A -> comparison)
    (cb : B -> B -> comparison) :
  CmpOrder ca -> CmpOrder cb ->
  CmpOrder (fun p q => then_cmp (ca (fst p) (fst q)) (cb (snd p) (snd q))).
Proof.
  intros Oa Ob. split.
  - intros [a b] [a' b']; simpl.
    destruct (ca a a') eqn:E; simpl; try discriminate.
    intros H. apply (cmp_eq _ Oa) in E. apply (cmp_eq _ Ob) in H. congruence.
  - intros [a b] [a' b']; simpl. rewrite (cmp_antisym _ Oa a a').
    destruct (ca a a'); simpl; [apply (cmp_antisym _ Ob)|reflexivity|reflexivity].
  - intros [a b] [a' b'] [a'' b''] c; simpl. intros H1 H2.
    destruct (ca a a') eqn:E1; simpl in H1.
    + apply (cmp_eq _ Oa) in E1. subst a'.
      destruct (ca a a'') eqn:E2; simpl in *; [|exact H2|exact H2].
      exact (cmp_trans _ Ob _ _ _ _ H1 H2).
    + subst c. destruct (ca a' a'') eqn:E2; simpl in H2; try discriminate.
      * apply (cmp_eq _ Oa) in E2. subst a''. now rewrite E1.
      * now rewrite (cmp_trans _ Oa _ _ _ _ E1 E2).
    + subst c. destruct (ca a' a'') eqn:E2; simpl in H2; try discriminate.
      * apply (cmp_eq _ Oa) in E2. subst a''. now rewrite E1.
      * now rewrite (cmp_trans _ Oa _ _ _ _ E1 E2).
Qed.

Lemma order_via {A B} (f : A -> B) (cb : B -> B -> comparison)
    (ca : A -> A -> comparison) :
  (forall x y, f x = f y -> x = y) ->
  (forall x y, ca x y = cb (f x) (f y)) ->
  CmpOrder cb -> CmpOrder ca.
Proof.
  intros Hinj Hca Ob. split.
  - intros x y. rewrite Hca. intros H. apply Hinj. now apply (cmp_eq _ Ob).
  - intros x y. rewrite !Hca. apply (cmp_antisym _ Ob).
  - intros x y z c. rewrite !Hca. apply (cmp_trans _ Ob).
Qed.

End OrderProofs.

Module ResolverProofs.
Import Resolver OrderProofs.

Lemma ident_order : CmpOrder ident_compare.
Proof.
  split.
  - intros [x|x] [y|y]; simpl; try discriminate.
    + intros H. apply (cmp_eq _ nat_order) in H. now subst.
    + intros H. apply (cmp_eq _ string_order) in H. now subst.
  - intros [x|x] [y|y]; simpl; try reflexivity.
    + apply (cmp_antisym _ nat_order).
    + apply (cmp_antisym _ string_order).
  - intros [x|x] [y|y] [z|z] c; simpl; intros H1 H2; try congruence.
    + exact (cmp_trans _ nat_order _ _ _ _ H1 H2).
    + exact (cmp_trans _ string_order _ _ _ _ H1 H2).
Qed.

Lemma pre_order : CmpOrder pre_compare.
Proof.
  pose proof (lex_order _ ident_order) as L. split.
  - intros [|x p] [|y q]; cbn [pre_compare]; try discriminate; [reflexivity|].
    apply (cmp_eq _ L).
  - intros [|x p] [|y q]; cbn [pre_compare]; try reflexivity.
    apply (cmp_antisym _ L).
  - intros [|x p] [|y q] [|z r] c; cbn [pre_compare]; intros H1 H2;
      try congruence.
    exact (cmp_trans _ L _ _ _ _ H1 H2).
Qed.

Lemma semver_order : CmpOrder compare.
Proof.
  pose proof (then_cmp_order _ _ nat_order
                (then_cmp_order _ _ nat_order
                   (then_cmp_order _ _ nat_order pre_order))) as O.
  apply (order_via (fun v => (major v, (minor v, (patch v, pre v)))) _ compare)
    with (3 := O).
  - intros [] []; simpl. intros H. injection H as -> -> -> ->. reflexivity.
  - reflexivity.
Qed.

Lemma is_highest_spec l c :
  is_highest l c = true <->
  forall d, In d l -> compare (version d) (version c) <> Gt.
Proof.
  unfold is_highest. rewrite forallb_forall. split; intros H d Hd.
  - specialize (H d Hd). destruct (compare _ _); simpl in *; congruence.
  - specialize (H d Hd). destruct (compare _ _); simpl in *; congruence.
Qed.

Lemma is_highest_version l c d :
  version c = version d -> is_highest l c = is_highest l d.
Proof. intros H. unfold is_highest. now rewrite H. Qed.

Lemma highest_exists l :
  l <> [] -> exists c, In c l /\ is_highest l c = true.
Proof.
  induction l as [|x l IH]; [congruence|intros _].
  destruct l as [|y l].
  { exists x. split; [now left|]. apply is_highest_spec.
    intros d [<-|[]]. now rewrite (cmp_refl _ semver_order). }
  destruct IH as [m [Hm Hh]]; [discriminate|].
  rewrite is_highest_spec in Hh.
  destruct (compare (version x) (version m)) eqn:E.
  - exists m. split; [now right|]. apply is_highest_spec.
    intros d [<-|Hd]; [congruence|now apply Hh].
  - exists m. split; [now right|]. apply is_highest_spec.
    intros d [<-|Hd]; [congruence|now apply Hh].
  - exists x. split; [now left|]. apply is_highest_spec.
    intros d [<-|Hd] Hg.
    + rewrite (cmp_refl _ semver_order) in Hg. discriminate.
    + apply (Hh d Hd). exact (cmp_trans _ semver_order _ _ _ _ Hg E).
Qed.

Lemma highest_same_version l c d :
  In c l -> In d l -> is_highest l c = true -> is_highest l d = true ->
  version c = version d.
Proof.
  intros Hc Hd Hhc Hhd. rewrite is_highest_spec in Hhc, Hhd.
  apply (cmp_eq _ semver_order).
  specialize (Hhc d Hd). specialize (Hhd c Hc).
  rewrite (cmp_antisym _ semver_order) in Hhc.
  destruct (compare (version c) (version d)); simpl in *; congruence.
Qed.

Lemma select_nonempty M :
  M <> [] ->
  select_highest M =
  match filter (is_highest M) M with
  | [c] => Ok c
  | _ => Err AmbiguousSources
  end.
Proof. destruct M; [congruence|reflexivity]. Qed.

Lemma in_matches req cands c :
  In c (filter (fun c => satisfies req (version c)) cands) <->
  In c cands /\ satisfies req (version c) = true.
Proof. apply filter_In. Qed.

Lemma singleton_perm {A E} (B B' : list A) (e : E) :
  Permutation B B' ->
  match B with [c] => Ok c | _ => Err e end =
  match B' with [c] => Ok c | _ => Err e end.
Proof.
  intros H. destruct B as [|x [|y r]].
  - apply Permutation_nil in H. now subst.
  - apply Permutation_length_1_inv in H. now subst.
  - apply Permutation_length in H.
    destruct B' as [|x' [|y' r']]; simpl in H; try lia; reflexivity.
Qed.

Lemma perm_filter {A} (f : A -> bool) l l' :
  Permutation l l' -> Permutation (filter f l) (filter f l').
Proof.
  induction 1 as [|x l l' _ IH|x y l|l l' l'' _ IH1 _ IH2]; simpl.
  - constructor.
  - destruct (f x); [constructor|]; exact IH.
  - destruct (f x), (f y); try constructor; reflexivity.
  - etransitivity; eassumption.
Qed.

Lemma is_highest_perm l l' c :
  Permutation l l' -> is_highest l c = is_highest l' c.
Proof.
  intros H. apply eq_true_iff_eq. rewrite !is_highest_spec.
  split; intros Hh d Hd; apply Hh.
  - apply Permutation_in with l'; [symmetry|]; assumption.
  - apply Permutation_in with l; assumption.
Qed.

Lemma select_perm M M' :
  Permutation M M' -> select_highest M = select_highest M'.
Proof.
  intros H. destruct M as [|m ms] eqn:HM.
  { apply Permutation_nil in H. now subst. }
  rewrite <- HM in *.
  assert (HM' : M' <> []).
  { intros ->. symmetry in H. apply Permutation_nil in H. now subst. }
  rewrite (select_nonempty M) by now subst.
  rewrite (select_nonempty M' HM').
  apply singleton_perm.
  rewrite (filter_ext (is_highest M) (is_highest M'))
    by (intros; now apply is_highest_perm).
  now apply perm_filter.
Qed.

(** C2 (as stated): the spec's example does not resolve to 1.2.5; 1.3.0
    also satisfies [^1.2.0] ([>=1.2.0 <2.0.0]) and is higher. *)
Lemma C2_example_not_1_2_5 :
  resolve (Caret (v3 1 2 0)) example_candidates <> Ok (candidate 1 2 5 2)
  /\ resolve (Caret (v3 1 2 0)) example_candidates = Ok (candidate 1 3 0 3).
Proof. split; vm_compute; [discriminate|reflexivity]. Qed.

(** C2 (amended): over a candidate set, [resolve] fails with [NoMatch]
    exactly when no candidate satisfies the range; when it returns a
    candidate, that candidate satisfies the range and every other
    satisfying candidate has a strictly lower version; it fails with
    [AmbiguousSources] exactly when two distinct satisfying candidates
    share the highest satisfying version.  On the spec's example
    [^1.2.0] over 1.2.0, 1.2.5, 1.3.0, 2.0.0 it returns 1.3.0, and
    [^1.2.0] over 1.0.0, 2.0.0 fails with [NoMatch]. *)
Theorem C2_resolve_highest (req : Range) (cands : list NakCandidate)
    (Hset : NoDup cands) :
  (resolve req cands = Err NoMatch <->
     forall c, In c cands -> satisfies req (version c) = false)
  /\ (forall c, resolve req cands = Ok c ->
        In c cands /\ satisfies req (version c) = true
        /\ forall d, In d cands -> satisfies req (version d) = true ->
                     d <> c -> compare (version d) (version c) = Lt)
  /\ (resolve req cands = Err AmbiguousSources <->
        exists c d, c <> d /\ In c cands /\ In d cands
          /\ satisfies req (version c) = true
          /\ satisfies req (version d) = true
          /\ version c = version d
          /\ forall e, In e cands -> satisfies req (version e) = true ->
                       compare (version e) (version c) <> Gt)
  /\ resolve (Caret (v3 1 2 0)) example_candidates = Ok (candidate 1 3 0 3)
  /\ resolve (Caret (v3 1 2 0)) [candidate 1 0 0 1; candidate 2 0 0 2]
     = Err NoMatch.
Proof.
  unfold resolve at 1 2 3.
  set (M := filter (fun c => satisfies req (version c)) cands).
  assert (HMnil : M = [] <->
                  forall c, In c cands -> satisfies req (version c) = false).
  { split.
    - intros HM c Hc. destruct (satisfies req (version c)) eqn:E; [|reflexivity].
      assert (In c M) by (apply in_matches; auto). rewrite HM in H. destruct H.
    - intros Hn. destruct M as [|m ms] eqn:HM; [reflexivity|].
      assert (In m M) by (rewrite HM; now left).
      apply in_matches in H as [H1 H2]. rewrite Hn in H2 by exact H1.
      discriminate. }
  split; [|split; [|split; [|split]]].
  - rewrite <- HMnil. split; [|intros ->; reflexivity].
    intros H. destruct M as [|m ms] eqn:HM; [reflexivity|].
    rewrite <- HM in H. rewrite select_nonempty in H by congruence.
    destruct (filter (is_highest M) M) as [|? [|? ?]]; discriminate.
  - intros c H. destruct M as [|m ms] eqn:HM; [discriminate|].
    rewrite <- HM in H. rewrite select_nonempty in H by congruence.
    destruct (filter (is_highest M) M) as [|x [|y r]] eqn:HB;
      try discriminate.
    injection H as <-.
    assert (Hx : In x (filter (is_highest M) M)) by (rewrite HB; now left).
    apply filter_In in Hx as [HxM Hxh].
    apply in_matches in HxM as HxM'. destruct HxM' as [Hx1 Hx2].
    split; [exact Hx1|]. split; [exact Hx2|].
    intros d Hd Hsd Hne.
    assert (HdM : In d M) by (apply in_matches; auto).
    pose proof Hxh as Hxh'. rewrite is_highest_spec in Hxh'.
    specialize (Hxh' d HdM).
    destruct (compare (version d) (version x)) eqn:E; [|reflexivity|congruence].
    apply (cmp_eq _ semver_order) in E.
    assert (In d (filter (is_highest M) M)).
    { apply filter_In. split; [exact HdM|].
      rewrite (is_highest_version M d x E). exact Hxh. }
    rewrite HB in H. destruct H as [<-|[]]. congruence.
  - split.
    + intros H. destruct M as [|m ms] eqn:HM; [discriminate|].
      rewrite <- HM in H. rewrite select_nonempty in H by congruence.
      destruct (highest_exists M) as [c0 [Hc0 Hh0]]; [congruence|].
      assert (Hnd : NoDup (filter (is_highest M) M))
        by (apply NoDup_filter, NoDup_filter, Hset).
      destruct (filter (is_highest M) M) as [|x [|y r]] eqn:HB.
      * assert (In c0 (filter (is_highest M) M)) by (apply filter_In; auto).
        rewrite HB in H0. destruct H0.
      * discriminate.
      * assert (Hx : In x (filter (is_highest M) M)) by (rewrite HB; now left).
        assert (Hy : In y (filter (is_highest M) M))
          by (rewrite HB; right; now left).
        apply filter_In in Hx as [HxM Hxh], Hy as [HyM Hyh].
        pose proof HxM as HxM'. pose proof HyM as HyM'.
        apply in_matches in HxM' as [Hx1 Hx2], HyM' as [Hy1 Hy2].
        exists x, y. split.
        { intros ->. apply NoDup_cons_iff in Hnd as [Hn _]. apply Hn. now left. }
        split; [exact Hx1|]. split; [exact Hy1|]. split; [exact Hx2|].
        split; [exact Hy2|]. split; [now apply highest_same_version with M|].
        intros e He Hse. rewrite is_highest_spec in Hxh. apply Hxh.
        apply in_matches. auto.
    + intros [c [d [Hne [Hc [Hd [Hsc [Hsd [Hv Hmax]]]]]]]].
      assert (HcM : In c M) by (apply in_matches; auto).
      assert (HdM : In d M) by (apply in_matches; auto).
      assert (Hhc : is_highest M c = true).
      { apply is_highest_spec. intros e He.
        apply in_matches in He as [He1 He2]. now apply Hmax. }
      assert (Hhd : is_highest M d = true)
        by (rewrite (is_highest_version M d c); congruence).
      rewrite select_nonempty by (intros HM; rewrite HM in HcM; destruct HcM).
      assert (Hc' : In c (filter (is_highest M) M)) by (apply filter_In; auto).
      assert (Hd' : In d (filter (is_highest M) M)) by (apply filter_In; auto).
      destruct (filter (is_highest M) M) as [|x [|y r]]; try reflexivity.
      destruct Hc' as [<-|[]]. destruct Hd' as [<-|[]]. congruence.
  - vm_compute. reflexivity.
  - vm_compute. reflexivity.
Qed.

Lemma C2_resolve_highest_witness :
  NoDup example_candidates
  /\ resolve (Caret (v3 1 2 0)) example_candidates = Ok (candidate 1 3 0 3).
Proof.
  assert (H : NoDup example_candidates).
  { unfold example_candidates.
    repeat constructor; simpl; intuition discriminate. }
  split; [exact H|].
  exact (proj1 (proj2 (proj2 (proj2
           (C2_resolve_highest (Caret (v3 1 2 0)) example_candidates H))))).
Defined.

(** C3: [resolve] depends on the candidates only up to their order. *)
Theorem C3_resolve_order_independent (req : Range)
    (cands cands' : list NakCandidate) (Hperm : Permutation cands cands') :
  resolve req cands = resolve req cands'.
Proof. unfold resolve. apply select_perm. now apply perm_filter. Qed.

Lemma C3_resolve_order_independent_witness :
  resolve (Caret (v3 1 2 0)) example_candidates
  = resolve (Caret (v3 1 2 0)) (rev example_candidates).
Proof.
  apply C3_resolve_order_independent. apply Permutation_rev.
Defined.

End ResolverProofs.


Module CodecProofs.
Import Codec.
Local Open Scope Z_scope.
Local Open Scope list_scope.

(** ** Bytes and 32-bit fields *)

Lemma bval_bound b : 0 <= bval b <= 255.
Proof. unfold bval. pose proof (Byte.to_N_bounded b). lia. Qed.

Lemma bval_inj a b : bval a = bval b -> a = b.
Proof.
  unfold bval. intros H. apply N2Z.inj in H.
  pose proof (Byte.of_to_N a) as Ha. pose proof (Byte.of_to_N b) as Hb.
  rewrite H in Ha. congruence.
Qed.

Lemma bval_byte_of_Z z : bval (byte_of_Z z) = z mod 256.
Proof.
  unfold byte_of_Z, bval. pose proof (Z.mod_pos_bound z 256) as B.
  destruct (Byte.of_N (Z.to_N (z mod 256))) eqn:E.
  - apply Byte.to_of_N in E. rewrite E. apply Z2N.id. lia.
  - apply Byte.of_N_None_iff in E. lia.
Qed.

Lemma u32_be_length n : length (u32_be n) = 4%nat.
Proof. reflexivity. Qed.

Lemma be32_u32_be n : 0 <= n < 2 ^ 32 -> be32 (u32_be n) = n.
Proof.
  intros Hn. unfold be32, u32_be. cbn [map fold_left].
  rewrite !bval_byte_of_Z.
  pose proof (Z.div_mod n 256 ltac:(lia)).
  pose proof (Z.div_mod (n / 256) 256 ltac:(lia)).
  pose proof (Z.div_mod (n / 256 / 256) 256 ltac:(lia)).
  pose proof (Z.div_mod (n / 256 / 256 / 256) 256 ltac:(lia)).
  pose proof (Z.mod_pos_bound n 256 ltac:(lia)).
  pose proof (Z.mod_pos_bound (n / 256) 256 ltac:(lia)).
  pose proof (Z.mod_pos_bound (n / 256 / 256) 256 ltac:(lia)).
  pose proof (Z.mod_pos_bound (n / 256 / 256 / 256) 256 ltac:(lia)).
  lia.
Qed.

Lemma read_u32_app n rest :
  0 <= n < 2 ^ 32 -> read_u32 (u32_be n ++ rest) = Some (n, rest).
Proof.
  intros Hn. rewrite <- (be32_u32_be n Hn) at 2. reflexivity.
Qed.

Lemma firstn_length_app {A} (l r : list A) : firstn (length l) (l ++ r) = l.
Proof. induction l; simpl; congruence. Qed.

Lemma skipn_length_app {A} (l r : list A) : skipn (length l) (l ++ r) = r.
Proof. induction l; simpl; congruence. Qed.

Lemma take_app l r : take (len l) (l ++ r) = Some (l, r).
Proof.
  unfold take, len. rewrite Nat2Z.id, length_app.
  replace (Nat.ltb (length l + length r) (length l)) with false
    by (symmetry; apply Nat.ltb_ge; lia).
  now rewrite firstn_length_app, skipn_length_app.
Qed.

(** ** Compression *)

Lemma rle_run_ok cur n l :
  (1 <= n <= 255)%nat ->
  decompress (rle_run cur n l) = Some (repeat cur n ++ l).
Proof.
  revert cur n. induction l as [|b l IH]; intros cur n Hn; simpl.
  - rewrite bval_byte_of_Z, Z.mod_small by lia.
    replace (Z.of_nat n =? 0) with false by (symmetry; apply Z.eqb_neq; lia).
    rewrite Nat2Z.id. reflexivity.
  - destruct (Byte.eqb b cur && Nat.ltb n 255) eqn:E.
    + apply andb_true_iff in E as [E1 E2].
      apply Byte.byte_dec_bl in E1. apply Nat.ltb_lt in E2. subst b.
      rewrite IH by lia.
      replace (S n) with (n + 1)%nat by lia.
      now rewrite repeat_app, <- app_assoc.
    + simpl. rewrite bval_byte_of_Z, Z.mod_small by lia.
      replace (Z.of_nat n =? 0) with false by (symmetry; apply Z.eqb_neq; lia).
      rewrite IH by lia. rewrite Nat2Z.id. reflexivity.
Qed.

Lemma decompress_compress l : decompress (compress l) = Some l.
Proof.
  destruct l as [|b l]; [reflexivity|]. simpl. now rewrite rle_run_ok by lia.
Qed.

(** ** Adler-32 *)

Lemma adler_fold l a b :
  0 <= a < adler_mod -> 0 <= b < adler_mod ->
  let st := fold_left adler_step l (a, b) in
  fst st = (a + fold_right Z.add 0 (map bval l)) mod adler_mod
  /\ 0 <= fst st < adler_mod /\ 0 <= snd st < adler_mod.
Proof.
  unfold adler_mod. revert a b.
  induction l as [|x l IH]; intros a b Ha Hb; cbn [fold_left map fold_right].
  - rewrite Z.add_0_r, Z.mod_small by lia. cbn. lia.
  - change adler_mod with 65521.
    replace (adler_step (a, b) x) with
      ((a + bval x) mod 65521, (b + (a + bval x) mod 65521) mod 65521)
      by reflexivity.
    destruct (IH ((a + bval x) mod 65521) ((b + (a + bval x) mod 65521) mod 65521))
      as [H1 H2].
    + apply Z.mod_pos_bound. lia.
    + apply Z.mod_pos_bound. lia.
    + split; [|exact H2]. rewrite H1.
      rewrite Zplus_mod_idemp_l. f_equal. lia.
Qed.

Lemma adler32_bound l : 0 <= adler32 l < 2 ^ 32.
Proof.
  unfold adler32. destruct (adler_fold l 1 0) as [_ [H1 H2]];
    unfold adler_mod in *; try lia.
Qed.

Lemma adler32_low l :
  adler32 l mod 65536 = (1 + fold_right Z.add 0 (map bval l)) mod adler_mod.
Proof.
  unfold adler32. destruct (adler_fold l 1 0) as [H0 [H1 H2]];
    unfold adler_mod in *; try lia.
  rewrite <- H0. rewrite Z.add_comm, Z.mod_add, Z.mod_small; lia.
Qed.

Lemma sum_set_nth l i v w :
  nth_error l i = Some v ->
  fold_right Z.add 0 (map bval (set_nth i w l))
  = fold_right Z.add 0 (map bval l) - bval v + bval w.
Proof.
  revert i. induction l as [|x l IH]; intros [|i] H; simpl in *;
    try discriminate.
  - injection H as ->. lia.
  - rewrite (IH i H). lia.
Qed.

Lemma adler32_set_nth l i v w :
  nth_error l i = Some v -> v <> w -> adler32 (set_nth i w l) <> adler32 l.
Proof.
  intros Hv Hne Heq. apply (f_equal (fun x => x mod 65536)) in Heq.
  rewrite !adler32_low, (sum_set_nth l i v w Hv) in Heq.
  assert (bval v <> bval w) by (intros E; apply Hne, bval_inj, E).
  pose proof (bval_bound v). pose proof (bval_bound w).
  set (X := fold_right Z.add 0 (map bval l)) in *.
  unfold adler_mod in Heq.
  pose proof (Z.div_mod (1 + X) 65521 ltac:(lia)).
  pose proof (Z.div_mod (1 + (X - bval v + bval w)) 65521 ltac:(lia)).
  lia.
Qed.

(** ** The trailer *)

Lemma set_nth_app_l {A} (l r : list A) i x :
  (i < length l)%nat -> set_nth i x (l ++ r) = set_nth i x l ++ r.
Proof.
  revert i. induction l as [|y l IH]; intros [|i] H; simpl in *; try lia;
    [reflexivity|]. rewrite IH by lia. reflexivity.
Qed.

Lemma set_nth_app_r {A} (l r : list A) i x :
  (length l <= i)%nat -> set_nth i x (l ++ r) = l ++ set_nth (i - length l) x r.
Proof.
  revert i. induction l as [|y l IH]; intros i H.
  - simpl. rewrite Nat.sub_0_r. reflexivity.
  - destruct i as [|i]; simpl in H; [lia|]. simpl. rewrite IH by lia.
    reflexivity.
Qed.

Lemma length_set_nth {A} (l : list A) i x :
  length (set_nth i x l) = length l.
Proof.
  revert i. induction l; intros [|i]; simpl; auto.
Qed.

Lemma split_trailer_app body t :
  length t = 4%nat -> split_trailer (body ++ t) = Some (body, t).
Proof.
  intros Ht. unfold split_trailer. rewrite length_app, Ht.
  replace (Nat.ltb (length body + 4) 4) with false
    by (symmetry; apply Nat.ltb_ge; lia).
  replace (length body + 4 - 4)%nat with (length body) by lia.
  now rewrite firstn_length_app, skipn_length_app.
Qed.

Lemma be32_set_nth t j w :
  length t = 4%nat -> (j < 4)%nat -> nth_error t j <> Some w ->
  be32 (set_nth j w t) <> be32 t.
Proof.
  intros Ht Hj Hw.
  destruct t as [|a [|b [|c [|d [|? ?]]]]]; simpl in Ht; try discriminate.
  pose proof (bval_bound a). pose proof (bval_bound b).
  pose proof (bval_bound c). pose proof (bval_bound d).
  pose proof (bval_bound w).
  destruct j as [|[|[|[|j]]]]; simpl in *; try lia;
    unfold be32; simpl; intros E; apply Hw; f_equal; apply bval_inj; lia.
Qed.

Lemma flip_detected body t i w :
  length t = 4%nat -> adler32 body = be32 t ->
  (i < length body + 4)%nat -> nth_error (body ++ t) i <> Some w ->
  decode (set_nth i w (body ++ t)) = Err DigestMismatch.
Proof.
  intros Ht Hd Hi Hw. unfold decode.
  destruct (Nat.lt_ge_cases i (length body)) as [Hl|Hl].
  - rewrite set_nth_app_l by exact Hl.
    rewrite split_trailer_app by exact Ht.
    rewrite nth_error_app1 in Hw by exact Hl.
    destruct (nth_error body i) as [v|] eqn:Hv.
    2:{ apply nth_error_None in Hv. lia. }
    assert (v <> w) by congruence.
    pose proof (adler32_set_nth body i v w Hv H).
    replace (adler32 (set_nth i w body) =? be32 t) with false
      by (symmetry; apply Z.eqb_neq; congruence).
    reflexivity.
  - rewrite set_nth_app_r by exact Hl.
    rewrite split_trailer_app by (rewrite length_set_nth; exact Ht).
    rewrite nth_error_app2 in Hw by exact Hl.
    pose proof (be32_set_nth t (i - length body) w Ht ltac:(lia) Hw).
    replace (adler32 body =? be32 (set_nth (i - length body) w t)) with false
      by (symmetry; apply Z.eqb_neq; congruence).
    reflexivity.
Qed.

Lemma encode_split fmt man entries :
  let body := header fmt man entries ++ compress (flat_map data entries) in
  encode fmt man entries = body ++ u32_be (adler32 body)
  /\ adler32 body = be32 (u32_be (adler32 body)).
Proof.
  split; [reflexivity|]. symmetry. apply be32_u32_be, adler32_bound.
Qed.

(** ** Header and payload *)

Lemma len_nonneg l : 0 <= len l.
Proof. unfold len. lia. Qed.

Lemma parse_entries_app es rest :
  Forall (fun e => len (list_byte_of_string (path e)) < 2 ^ 32
                   /\ len (data e) < 2 ^ 32 /\ 0 <= mode e < 2 ^ 32) es ->
  parse_entries (length es) (flat_map encode_entry_header es ++ rest)
  = Some (table_of es, rest).
Proof.
  induction 1 as [|e es [H1 [H2 H3]] _ IH]; [reflexivity|].
  change (flat_map encode_entry_header (e :: es))
    with (encode_entry_header e ++ flat_map encode_entry_header es).
  change (encode_entry_header e) with
    (u32_be (len (list_byte_of_string (path e))) ++ list_byte_of_string (path e)
     ++ u32_be (len (data e)) ++ u32_be (mode e)).
  cbn [length parse_entries].
  rewrite <- !app_assoc.
  rewrite read_u32_app by (pose proof (len_nonneg (list_byte_of_string (path e))); lia).
  rewrite take_app.
  rewrite read_u32_app by (pose proof (len_nonneg (data e)); lia).
  rewrite read_u32_app by exact H3.
  rewrite IH, string_of_list_byte_of_string. reflexivity.
Qed.

Lemma split_data_app es :
  split_data (table_of es) (flat_map data es) = Some es.
Proof.
  induction es as [|[p d m] es IH]; [reflexivity|].
  change (flat_map data (mkEntry p d m :: es)) with (d ++ flat_map data es).
  cbn [table_of map split_data data path mode].
  rewrite take_app. fold (table_of es). rewrite IH. reflexivity.
Qed.

Lemma forallb_table es :
  forallb (fun '(p, _, _) => safe_path p) (table_of es)
  = forallb (fun e => safe_path (path e)) es.
Proof. induction es as [|e es IH]; simpl; congruence. Qed.

Lemma split_data_paths table stream es :
  split_data table stream = Some es ->
  map path es = map (fun '(p, _, _) => p) table.
Proof.
  revert stream es.
  induction table as [|[[p dl] m] table IH]; intros stream es H; simpl in H.
  - destruct stream; [|discriminate]. injection H as <-. reflexivity.
  - destruct (take dl stream) as [[d rest]|]; [|discriminate].
    destruct (split_data table rest) as [es'|] eqn:E; [|discriminate].
    injection H as <-. simpl. f_equal. exact (IH _ _ E).
Qed.

(** [decode] of an [encode] whose header fields fit: the entry table is
    read back, and the path check decides between [UnsafePath] and the
    payload. *)
Lemma decode_encode_table fmt man es
    (Hman : len man < 2 ^ 32)
    (Hcount : Z.of_nat (length es) < 2 ^ 32)
    (Hfit : Forall (fun e => len (list_byte_of_string (path e)) < 2 ^ 32
                             /\ len (data e) < 2 ^ 32
                             /\ 0 <= mode e < 2 ^ 32) es) :
  decode (encode fmt man es) =
    if negb (forallb (fun e => safe_path (path e)) es) then Err UnsafePath
    else Ok (mkArchive fmt man es).
Proof.
  destruct (encode_split fmt man es) as [He Hd]. rewrite He.
  unfold decode. rewrite split_trailer_app by reflexivity.
  rewrite <- Hd, Z.eqb_refl. cbn [negb].
  unfold header. rewrite <- !app_assoc. cbn [app parse_body].
  replace (format_of_tag (format_tag fmt)) with (Some fmt) by (destruct fmt; reflexivity).
  cbn [Byte.eqb negb].
  rewrite read_u32_app by (pose proof (len_nonneg man); lia).
  rewrite take_app.
  rewrite read_u32_app by lia.
  rewrite Nat2Z.id, parse_entries_app by exact Hfit.
  rewrite forallb_table.
  destruct (forallb (fun e => safe_path (path e)) es); [|reflexivity].
  cbn [negb]. rewrite decompress_compress, split_data_app. reflexivity.
Qed.

(** C4 (as stated): canonical order alone does not make [decode] invert
    [encode]: an archive whose single entry has an absolute path is
    rejected by [decode], and so is the round trip of an archive whose
    entry mode does not fit the 32-bit header field (it comes back
    truncated). *)
Lemma C4_roundtrip_fails_unsafe :
  let a := mkArchive NAK example_manifest
             [mkEntry "/etc/passwd" (bytes "root") 420] in
  let b := mkArchive NAK example_manifest
             [mkEntry "bin/engine-loader" (bytes "ELF") (2 ^ 32 + 493)] in
  decode (encode (format a) (manifest_bytes a) (payload a)) = Err UnsafePath
  /\ decode (encode (format a) (manifest_bytes a) (payload a)) <> Ok a
  /\ decode (encode (format b) (manifest_bytes b) (payload b))
     = Ok (mkArchive NAK example_manifest
             [mkEntry "bin/engine-loader" (bytes "ELF") 493])
  /\ decode (encode (format b) (manifest_bytes b) (payload b)) <> Ok b.
Proof.
  split; [vm_compute; reflexivity|].
  split; [vm_compute; discriminate|].
  split; [vm_compute; reflexivity|].
  vm_compute. intros H. inversion H.
Qed.

(** C4 (amended): for every archive whose manifest size, entry count,
    path and data sizes and modes fit the 32-bit header fields, [decode]
    inverts [encode] when every entry path is relative and free of [..]
    components, whatever the entry order (canonical or not), and [decode]
    fails with [UnsafePath] when some entry path is absolute or has a
    [..] component. *)
Theorem C4_decode_encode (a : PackageArchive)
    (Hman : len (manifest_bytes a) < 2 ^ 32)
    (Hcount : Z.of_nat (length (payload a)) < 2 ^ 32)
    (Hfit : Forall (fun e => len (list_byte_of_string (path e)) < 2 ^ 32
                             /\ len (data e) < 2 ^ 32
                             /\ 0 <= mode e < 2 ^ 32) (payload a)) :
  (Forall (fun e => safe_path (path e) = true) (payload a) ->
   decode (encode (format a) (manifest_bytes a) (payload a)) = Ok a)
  /\ (Exists (fun e => safe_path (path e) = false) (payload a) ->
      decode (encode (format a) (manifest_bytes a) (payload a)) = Err UnsafePath).
Proof.
  destruct a as [fmt man es]; cbn [format manifest_bytes payload] in *.
  rewrite (decode_encode_table fmt man es Hman Hcount Hfit).
  split.
  - intros Hsafe.
    replace (forallb (fun e => safe_path (path e)) es) with true
      by (symmetry; apply forallb_forall; intros e He'; rewrite Forall_forall in Hsafe;
          now apply Hsafe).
    reflexivity.
  - intros Hun.
    replace (forallb (fun e => safe_path (path e)) es) with false; [reflexivity|].
    symmetry. apply not_true_iff_false. intros Hall.
    rewrite forallb_forall in Hall. apply Exists_exists in Hun as [e [He Hs]].
    rewrite (Hall e He) in Hs. discriminate.
Qed.

Lemma C4_decode_encode_witness :
  decode (encode NAK example_manifest
            [mkEntry "bin/engine-loader" (bytes "ELF....") 493;
             mkEntry "lib/libgameengine.so" (bytes "zzzzzz") 420])
  = Ok (mkArchive NAK example_manifest
            [mkEntry "bin/engine-loader" (bytes "ELF....") 493;
             mkEntry "lib/libgameengine.so" (bytes "zzzzzz") 420]).
Proof.
  refine (proj1 (C4_decode_encode (mkArchive NAK example_manifest
            [mkEntry "bin/engine-loader" (bytes "ELF....") 493;
             mkEntry "lib/libgameengine.so" (bytes "zzzzzz") 420]) _ _ _) _);
    cbn [manifest_bytes payload].
  - vm_compute. reflexivity.
  - vm_compute. reflexivity.
  - repeat (apply Forall_cons;
            [repeat split; vm_compute; first [reflexivity|discriminate]|]).
    apply Forall_nil.
  - repeat (apply Forall_cons; [vm_compute; reflexivity|]).
    apply Forall_nil.
Defined.

(** C5: changing any one byte of an encoded archive makes [decode] fail
    with [DigestMismatch]; and [decode] returns an archive only for a
    stream whose trailer matches the checksum of everything before it. *)
Theorem C5_tamper_detected (fmt : Format) (man : list byte)
    (es : list Entry) (i : nat) (w : byte)
    (Hi : (i < length (encode fmt man es))%nat)
    (Hw : nth_error (encode fmt man es) i <> Some w) :
  decode (set_nth i w (encode fmt man es)) = Err DigestMismatch
  /\ (forall s a, decode s = Ok a ->
        exists body t, split_trailer s = Some (body, t)
                       /\ adler32 body = be32 t).
Proof.
  split.
  - destruct (encode_split fmt man es) as [He Hd]. rewrite He in *.
    apply flip_detected.
    + reflexivity.
    + exact Hd.
    + rewrite length_app in Hi. exact Hi.
    + exact Hw.
  - intros s a H. unfold decode in H.
    destruct (split_trailer s) as [[body t]|]; [|discriminate].
    exists body, t. split; [reflexivity|].
    destruct (adler32 body =? be32 t) eqn:E; [now apply Z.eqb_eq|discriminate].
Qed.

Lemma C5_tamper_detected_witness :
  decode (set_nth 0 x00 (encode NAK example_manifest
                           [mkEntry "bin/engine-loader" (bytes "ELF") 493]))
  = Err DigestMismatch.
Proof.
  refine (proj1 (C5_tamper_detected NAK example_manifest
                   [mkEntry "bin/engine-loader" (bytes "ELF") 493] 0 x00 _ _)).
  - vm_compute. lia.
  - vm_compute. discriminate.
Defined.

(** C6: every archive [decode] returns has only relative entry paths
    without [..] components, so an archive with an absolute or escaping
    entry is never returned; [../../etc/passwd] is rejected. *)
Theorem C6_decode_rejects_unsafe_paths (s : list byte) (a : PackageArchive)
    (Hok : decode s = Ok a) :
  Forall (fun e => is_absolute (path e) = false
                   /\ has_parent_component (path e) = false) (payload a)
  /\ decode (encode NAK example_manifest
               [mkEntry "../../etc/passwd" (bytes "root:x:0:0") 420])
     = Err UnsafePath.
Proof.
  split; [|vm_compute; reflexivity].
  unfold decode, parse_body in Hok.
  repeat match type of Hok with
  | context [match ?x with _ => _ end] => destruct x eqn:?; try discriminate
  end.
  injection Hok as <-. cbn [payload].
  repeat match goal with
  | H : split_data _ _ = Some _ |- _ => apply split_data_paths in H
  | H : negb _ = false |- _ => apply negb_false_iff in H
  end.
  apply Forall_forall. intros e He.
  match goal with
  | H : map path _ = map _ ?tbl |- _ =>
      assert (Hp : In (path e) (map (fun '(p, _, _) => p) tbl))
        by (rewrite <- H; now apply in_map)
  end.
  apply in_map_iff in Hp as [[[q dl] m] [Hpe Hin]].
  match goal with Hf : forallb _ _ = true |- _ =>
    rewrite forallb_forall in Hf; pose proof (Hf _ Hin) as Hs end.
  cbn beta iota in Hs, Hpe. subst q. unfold safe_path in Hs.
  apply andb_true_iff in Hs as [H1 H2]. apply negb_true_iff in H1, H2. auto.
Qed.

Lemma C6_decode_rejects_unsafe_paths_witness :
  Forall (fun e => is_absolute (path e) = false
                   /\ has_parent_component (path e) = false)
    (payload (mkArchive NAK example_manifest
                [mkEntry "bin/engine-loader" (bytes "ELF") 493])).
Proof.
  refine (proj1 (C6_decode_rejects_unsafe_paths
                   (encode NAK example_manifest
                      [mkEntry "bin/engine-loader" (bytes "ELF") 493])
                   (mkArchive NAK example_manifest
                      [mkEntry "bin/engine-loader" (bytes "ELF") 493]) _)).
  vm_compute. reflexivity.
Defined.

End CodecProofs.

(** ** Materializer and linkage *)

Module MaterializerProofs.
Import NahConan Resolver Materializer.

Lemma static_components os o :
  shared o = false ->
  components (package_info os o) =
    [("nahhost",
      mkComponent [if String.eqb os "Windows" then "nahhost_static"
                   else "nahhost"]
        ["nah_contract"; "nah_config"; "nah_platform";
         "nah_packaging"; "nah_materializer"]);
     ("nah_materializer",
      mkComponent ["nah_materializer"]
        ["nah_packaging"; "nah_platform";
         "openssl::crypto"; "libcurl::libcurl"]);
     ("nah_contract",
      mkComponent ["nah_contract"]
        ["nah_manifest"; "nah_config"; "nah_platform";
         "nlohmann_json::nlohmann_json"; "tomlplusplus::tomlplusplus"]);
     ("nah_manifest", mkComponent ["nah_manifest"] []);
     ("nah_config",
      mkComponent ["nah_config"] ["tomlplusplus::tomlplusplus"]);
     ("nah_platform", mkComponent ["nah_platform"] []);
     ("nah_packaging",
      mkComponent ["nah_packaging"]
        ["nah_manifest"; "nah_config"; "nah_platform";
         "nah_contract"; "zlib::zlib"])].
Proof. intros Hs. unfold package_info. rewrite Hs. reflexivity. Qed.

Lemma static_only_materializer os o :
  shared o = false -> only_materializer_links_tls (package_info os o).
Proof.
  intros Hs. unfold only_materializer_links_tls.
  rewrite (static_components os o Hs). split.
  - eexists. split; [reflexivity|]. split; reflexivity.
  - intros n c Hin Hl. cbn in Hin.
    repeat destruct Hin as [Hin|Hin];
      try (injection Hin as <- <-; cbn in Hl; try discriminate Hl;
           reflexivity).
    destruct Hin.
Qed.

Lemma static_nahhost_materializer os o :
  shared o = false ->
  depends_on (package_info os o) "nahhost" "nah_materializer".
Proof.
  intros Hs. apply dep_edge. unfold edge.
  rewrite (static_components os o Hs).
  eexists. split; [reflexivity|]. split; [cbn; tauto|reflexivity].
Qed.

(** Every request of the retry loop uses TLS on [uri]; there is at least
    one and at most [k]. *)
Lemma fetch_attempts_spec net uri n k :
  let '(evs, _) := fetch_attempts net uri n k in
  (forall t u, In (Fetch t u) evs -> t = Tls /\ u = uri)
  /\ fetch_count evs <= k
  /\ (0 < k -> In (Fetch Tls uri) evs).
Proof.
  revert n. induction k as [|k IH]; intros n; cbn.
  - split; [tauto|]. split; [constructor|]. intros H. inversion H.
  - destruct (net n).
    + cbn. split; [intros t u [H|[]]; now injection H as <- <-|].
      split; [apply le_n_S, le_0_n|]. now left.
    + destruct k as [|k'].
      * cbn. split; [intros t u [H|[]]; now injection H as <- <-|].
        split; [constructor|]. now left.
      * specialize (IH (S n)).
        destruct (fetch_attempts net uri (S n) (S k')) as [evs r].
        destruct IH as [Ht [Hc _]]. cbn.
        split; [|split; [now apply le_n_S|now left]].
        intros t u [H|[H|H]];
          [now injection H as <- <-|discriminate|now apply Ht].
Qed.

Lemma key_eqb_refl k : key_eqb k k = true.
Proof.
  destruct k as [[i v] d]. cbn.
  rewrite String.eqb_refl, Z.eqb_refl.
  rewrite (OrderProofs.cmp_refl _ ResolverProofs.semver_order v).
  reflexivity.
Qed.

End MaterializerProofs.

Module MaterializerClaims.
Import NahConan Resolver Materializer MaterializerProofs.

(** C7: in the static build (the recipe's default, the only layout with
    components) the materializer component requires both the TLS crypto
    library and the HTTP transport library, and no other component
    requires either; [nahhost] reaches them only through its edge to the
    materializer.  On a cache miss [materialize] goes to the network: it
    requests the candidate's [source_uri] at least once and at most
    [max_attempts] times, every request over TLS; after a successful
    call the same request is a cache hit with no network access. *)
Theorem C7_tls_fetch_and_linkage (os : string) (o : Options)
    (net : nat -> option (list byte)) (nak_id cache_root : string)
    (c : NakCandidate) (cache : list CacheKey)
    (Hstatic : shared o = false)
    (Hmiss : in_cache (nak_id, version c, digest c) cache = false) :
  only_materializer_links_tls (package_info os o)
  /\ depends_on (package_info os o) "nahhost" "nah_materializer"
  /\ (let '(r, cache', evs) := materialize net nak_id cache_root c cache in
      In (Fetch Tls (source_uri c)) evs
      /\ (forall t u, In (Fetch t u) evs -> t = Tls /\ u = source_uri c)
      /\ fetch_count evs <= max_attempts
      /\ (forall m, r = Ok m ->
            materialize net nak_id cache_root c cache' =
              (Ok (mkMaterialized (version c) (root_path m) (digest c) true),
               cache', []))).
Proof.
  split; [now apply static_only_materializer|].
  split; [now apply static_nahhost_materializer|].
  unfold materialize. rewrite Hmiss. unfold fetch_with_retry.
  pose proof (fetch_attempts_spec net (source_uri c) 0 max_attempts) as Hf.
  destruct (fetch_attempts net (source_uri c) 0 max_attempts) as [evs r].
  destruct Hf as [Ht [Hc Hin]].
  assert (Hev : In (Fetch Tls (source_uri c)) evs)
    by (apply Hin; unfold max_attempts; repeat constructor).
  destruct r as [b|].
  - destruct (negb (Z.eqb (Codec.adler32 b) (digest c))).
    + cbn beta iota. split; [exact Hev|]. split; [exact Ht|].
      split; [exact Hc|]. intros m Hm. discriminate Hm.
    + destruct (Codec.decode b).
      * cbn beta iota. split; [exact Hev|]. split; [exact Ht|].
        split; [exact Hc|]. intros m Hm. injection Hm as <-.
        unfold in_cache. cbn [existsb]. rewrite key_eqb_refl. reflexivity.
      * cbn beta iota. split; [exact Hev|]. split; [exact Ht|].
        split; [exact Hc|]. intros m Hm. discriminate Hm.
  - cbn beta iota. split; [exact Hev|]. split; [exact Ht|].
    split; [exact Hc|]. intros m Hm. discriminate Hm.
Qed.

Lemma C7_tls_fetch_and_linkage_witness :
  shared default_options = false
  /\ in_cache ("engine", version (candidate 1 2 0 1), digest (candidate 1 2 0 1))
       [] = false
  /\ only_materializer_links_tls (package_info "Linux" default_options).
Proof.
  split; [reflexivity|]. split; [reflexivity|].
  exact (proj1 (C7_tls_fetch_and_linkage "Linux" default_options
                  (fun _ => None) "engine" "/var/cache/nah"
                  (candidate 1 2 0 1) [] eq_refl eq_refl)).
Defined.

End MaterializerClaims.

(** ** Contract composer *)

Module ComposerProofs.
Import Materializer Composer.

Lemma subst_go_none vars inside l :
  subst_go vars inside l = None <->
  exists x, In x (placeholders_go inside l) /\ PyDict.get x vars = None.
Proof.
  revert inside. induction l as [|c r IH]; intros inside.
  - destruct inside; cbn; split; try discriminate;
      intros [x [[] _]].
  - destruct inside as [acc|]; cbn.
    + destruct (Ascii.eqb c "}"%char).
      * destruct (PyDict.get (string_of_list_ascii (rev acc)) vars)
          as [v|] eqn:Hv.
        -- destruct (subst_go vars None r) eqn:Hr.
           ++ split; [discriminate|].
              intros [x [[<-|Hx] Hg]]; [congruence|].
              assert (subst_go vars None r = None)
                by (apply IH; eauto). congruence.
           ++ split; [|reflexivity]. intros _.
              apply IH in Hr as [x [Hx Hg]]. exists x. split; [right|]; auto.
        -- split; [|reflexivity]. intros _.
           exists (string_of_list_ascii (rev acc)). split; [left|]; auto.
      * apply IH.
    + destruct (Ascii.eqb c "{"%char); [apply IH|].
      destruct (subst_go vars None r) eqn:Hr.
      * split; [discriminate|]. intros Hx.
        apply IH in Hx. congruence.
      * split; [|reflexivity]. intros _. now apply IH.
Qed.

Lemma subst_none vars s :
  subst vars s = None <->
  exists x, In x (placeholders s) /\ PyDict.get x vars = None.
Proof.
  unfold subst, placeholders. rewrite <- subst_go_none.
  destruct (subst_go vars None (list_ascii_of_string s)); cbn;
    split; congruence.
Qed.

Lemma subst_list_none vars l :
  subst_list vars l = None <->
  exists x, In x (flat_map placeholders l) /\ PyDict.get x vars = None.
Proof.
  induction l as [|s l IH]; cbn.
  - split; [discriminate|]. intros [x [[] _]].
  - destruct (subst vars s) eqn:Hs, (subst_list vars l) eqn:Hl.
    + split; [discriminate|]. intros [x [Hx Hg]].
      apply in_app_or in Hx as [Hx|Hx].
      * assert (subst vars s = None) by (apply subst_none; eauto).
        congruence.
      * destruct IH as [_ HI].
        discriminate (HI (ex_intro _ x (conj Hx Hg))).
    + split; [|reflexivity]. intros _.
      destruct (proj1 IH eq_refl) as [x [Hx Hg]].
      exists x. split; [apply in_or_app; right|]; auto.
    + split; [|reflexivity]. intros _.
      destruct (proj1 (subst_none vars s) Hs) as [x [Hx Hg]].
      exists x. split; [apply in_or_app; left|]; auto.
    + split; [|reflexivity]. intros _.
      destruct (proj1 (subst_none vars s) Hs) as [x [Hx Hg]].
      exists x. split; [apply in_or_app; left|]; auto.
Qed.

Lemma subst_env_none vars env :
  subst_env vars env = None <->
  exists x, In x (flat_map (fun kv => placeholders (snd kv)) env)
            /\ PyDict.get x vars = None.
Proof.
  induction env as [|[k s] env IH]; cbn.
  - split; [discriminate|]. intros [x [[] _]].
  - destruct (subst vars s) eqn:Hs, (subst_env vars env) eqn:Hl.
    + split; [discriminate|]. intros [x [Hx Hg]].
      apply in_app_or in Hx as [Hx|Hx].
      * assert (subst vars s = None) by (apply subst_none; eauto).
        congruence.
      * destruct IH as [_ HI].
        discriminate (HI (ex_intro _ x (conj Hx Hg))).
    + split; [|reflexivity]. intros _.
      destruct (proj1 IH eq_refl) as [x [Hx Hg]].
      exists x. split; [apply in_or_app; right|]; auto.
    + split; [|reflexivity]. intros _.
      destruct (proj1 (subst_none vars s) Hs) as [x [Hx Hg]].
      exists x. split; [apply in_or_app; left|]; auto.
    + split; [|reflexivity]. intros _.
      destruct (proj1 (subst_none vars s) Hs) as [x [Hx Hg]].
      exists x. split; [apply in_or_app; left|]; auto.
Qed.


Lemma compose_unresolved m config p nak props :
  platform_ok m p = true ->
  compose m config p nak props = Err UnresolvedVariable <->
  exists x, In x (template_placeholders props)
            /\ PyDict.get x (template_vars m p nak config) = None.
Proof.
  intros Hp. unfold compose, template_placeholders. rewrite Hp. cbn [negb].
  set (vars := template_vars m p nak config).
  destruct (subst vars (loader_exec_of props)) eqn:He,
           (subst_list vars (loader_args_of props)) eqn:Ha,
           (subst vars (cwd_of props)) eqn:Hw,
           (subst_env vars (environment_of props)) eqn:Hv;
    try (split; [intros _|reflexivity]);
    try (destruct (proj1 (subst_none vars _) He) as [x [Hx Hg]];
         exists x; split; [apply in_or_app; left|]; assumption);
    try (destruct (proj1 (subst_list_none vars _) Ha) as [x [Hx Hg]];
         exists x; split; [apply in_or_app; right; apply in_or_app; left|];
         assumption);
    try (destruct (proj1 (subst_none vars _) Hw) as [x [Hx Hg]];
         exists x; split;
         [do 2 (apply in_or_app; right); apply in_or_app; left|];
         assumption);
    try (destruct (proj1 (subst_env_none vars _) Hv) as [x [Hx Hg]];
         exists x; split; [do 3 (apply in_or_app; right)|]; assumption).
  split; [discriminate|]. intros [x [Hx Hg]].
  repeat (apply in_app_or in Hx as [Hx|Hx]).
  - assert (subst vars (loader_exec_of props) = None)
      by (apply subst_none; eauto). congruence.
  - assert (subst_list vars (loader_args_of props) = None)
      by (apply subst_list_none; eauto). congruence.
  - assert (subst vars (cwd_of props) = None)
      by (apply subst_none; eauto). congruence.
  - assert (subst_env vars (environment_of props) = None)
      by (apply subst_env_none; eauto). congruence.
Qed.


End ComposerProofs.

Module ComposerClaims.
Import Materializer Composer ComposerProofs.




End ComposerClaims.

(** ** Further properties of the recipes *)

Module RecipeProofs.
Import NahConan.

Lemma forallb_In {A} (f : A -> bool) l x :
  forallb f l = true -> In x l -> f x = true.
Proof. rewrite forallb_forall. auto. Qed.

Lemma static_edge_tac os o a b c :
  shared o = false ->
  PyDict.get a (components (package_info os o)) = Some c ->
  In b (c_requires c) -> internal b = true ->
  depends_on (package_info os o) a b.
Proof. intros _ Hg Hin Hb. apply dep_edge. exists c. auto. Qed.

Lemma rank_le n : NahConanProofs.rank n <= 4.
Proof.
  unfold NahConanProofs.rank.
  repeat (destruct (String.eqb _ _)); auto.
Qed.

(** [s ++ t] begins with [s]. *)
Lemma prefix_app s t : String.prefix s (s ++ t) = true.
Proof.
  induction s as [|a s IH]; cbn; [destruct t; reflexivity|].
  destruct (ascii_dec a a) as [_|n]; [exact IH|contradiction].
Qed.

Lemma path_join_app a b : exists t, path_join a b = a ++ t.
Proof.
  unfold path_join. destruct (String.eqb_spec a "") as [->|Ha].
  - now exists b.
  - destruct (rev (list_ascii_of_string a)) as [|c r] eqn:E.
    + exfalso. apply Ha.
      apply (f_equal (@rev ascii)) in E. rewrite rev_involutive in E.
      rewrite <- (string_of_list_ascii_of_string a), E. reflexivity.
    + destruct (Ascii.eqb c "/"%char); eauto.
Qed.

Lemma prefix_path_join a b : String.prefix a (path_join a b) = true.
Proof. destruct (path_join_app a b) as [t ->]. apply prefix_app. Qed.

(** ** [dirname] and [join] *)

Lemma posix_join_relative a b :
  match list_ascii_of_string b with
  | c :: _ => Ascii.eqb c "/"%char = false
  | [] => True
  end ->
  posix_join a b = path_join a b.
Proof.
  unfold posix_join. destruct (list_ascii_of_string b) as [|c r]; [reflexivity|].
  now intros ->.
Qed.

Lemma list_ascii_app s t :
  list_ascii_of_string (s ++ t) = (list_ascii_of_string s ++ list_ascii_of_string t)%list.
Proof. induction s as [|a s IH]; cbn; congruence. Qed.

Lemma rfind_app i l1 l2 acc :
  rfind_slash_aux i (l1 ++ l2) acc =
  rfind_slash_aux (i + length l1) l2 (rfind_slash_aux i l1 acc).
Proof.
  revert i acc. induction l1 as [|c l1 IH]; intros i acc; cbn.
  - now rewrite Nat.add_0_r.
  - rewrite IH. f_equal. lia.
Qed.

Lemma rfind_no_slash i l acc :
  existsb (fun c => Ascii.eqb c "/"%char) l = false ->
  rfind_slash_aux i l acc = acc.
Proof.
  revert i acc. induction l as [|c l IH]; intros i acc; cbn; [reflexivity|].
  destruct (Ascii.eqb c "/"%char); cbn; [discriminate|]. apply IH.
Qed.

Lemma all_slashes_app l1 l2 :
  all_slashes (l1 ++ l2) = all_slashes l1 && all_slashes l2.
Proof.
  induction l1 as [|c l1 IH]; cbn; [reflexivity|].
  rewrite IH. apply andb_assoc.
Qed.

Lemma dirname_no_slash base :
  has_slash base = false -> dirname base = "".
Proof.
  intros H. unfold dirname. now rewrite rfind_no_slash.
Qed.

Lemma dirname_file d base :
  has_slash base = false -> ends_with_slash d = false ->
  dirname (d ++ "/" ++ base) = if String.eqb d "" then "/" else d.
Proof.
  intros Hb Hd. unfold has_slash, ends_with_slash, dirname in *.
  rewrite !list_ascii_app. cbn [list_ascii_of_string app].
  set (ld := list_ascii_of_string d) in *.
  set (lb := list_ascii_of_string base) in *.
  rewrite rfind_app. cbn [rfind_slash_aux].
  rewrite Ascii.eqb_refl, rfind_no_slash by exact Hb.
  rewrite Nat.add_0_l.
  replace (firstn (S (length ld)) (ld ++ "/"%char :: lb)) with (ld ++ ["/"%char])%list.
  2:{ rewrite firstn_app, firstn_all2 by lia.
      replace (S (length ld) - length ld) with 1 by lia. reflexivity. }
  destruct (rev ld) as [|c r] eqn:E.
  - apply (f_equal (@rev ascii)) in E. rewrite rev_involutive in E.
    assert (d = "") as ->.
    { rewrite <- (string_of_list_ascii_of_string d). fold ld. now rewrite E. }
    reflexivity.
  - assert (Hld : ld = (rev r ++ [c])%list).
    { apply (f_equal (@rev ascii)) in E. rewrite rev_involutive in E.
      exact E. }
    assert (Hne : String.eqb d "" = false).
    { apply String.eqb_neq. intros Hd0. unfold ld in Hld. rewrite Hd0 in Hld.
      cbn in Hld. destruct (rev r); discriminate Hld. }
    rewrite Hne.
    assert (Has : all_slashes (ld ++ ["/"%char]) = false).
    { rewrite Hld, !all_slashes_app. cbn [all_slashes]. rewrite Hd.
      destruct (all_slashes (rev r)); reflexivity. }
    rewrite Has, rev_app_distr. cbn [rev app]. rewrite E.
    cbv beta iota fix. rewrite Ascii.eqb_refl, Hd.
    rewrite <- E, rev_involutive. apply string_of_list_ascii_of_string.
Qed.

(** ** [strip] *)

Lemma lstrip_suffix l : exists p, l = (p ++ lstrip_chars l)%list.
Proof.
  induction l as [|c l [p Hp]]; cbn; [now exists []|].
  destruct (py_isspace c).
  - exists (c :: p). cbn. now f_equal.
  - now exists [].
Qed.

Lemma lstrip_id l :
  match l with c :: _ => py_isspace c = false | [] => True end ->
  lstrip_chars l = l.
Proof. destruct l as [|c l]; cbn; [reflexivity|]. now intros ->. Qed.

Lemma strip_edge_space_free s : edge_space_free (strip s) = true.
Proof.
  unfold edge_space_free, strip.
  remember (lstrip_chars s) as m eqn:Hm.
  remember (lstrip_chars (rev m)) as L eqn:HL.
  destruct (rev L) as [|c t] eqn:E1; [reflexivity|].
  rewrite <- E1, rev_involutive.
  destruct L as [|d u]; [reflexivity|].
  apply andb_true_intro. split; apply negb_true_iff.
  - destruct (lstrip_suffix (rev m)) as [p Hp]. rewrite <- HL in Hp.
    apply (f_equal (@rev Z)) in E1. rewrite rev_involutive in E1.
    cbn in E1. rewrite E1 in Hp.
    assert (Hm' : m = c :: (t ++ rev p)%list).
    { apply (f_equal (@rev Z)) in Hp. rewrite rev_involutive in Hp.
      rewrite Hp, !rev_app_distr, rev_involutive. reflexivity. }
    rewrite Hm in Hm'.
    exact (NahConanProofs.lstrip_chars_head _ _ _ Hm').
  - exact (NahConanProofs.lstrip_chars_head _ _ _ (eq_sym HL)).
Qed.

Lemma strip_id s : edge_space_free s = true -> strip s = s.
Proof.
  unfold edge_space_free, strip. intros H.
  destruct s as [|c r]; [reflexivity|].
  destruct (rev (c :: r)) as [|d u] eqn:Er.
  { apply (f_equal (@length Z)) in Er. rewrite length_rev in Er.
    discriminate Er. }
  apply andb_prop in H as [H1 H2]. apply negb_true_iff in H1, H2.
  rewrite (lstrip_id (c :: r)) by exact H1.
  rewrite Er, (lstrip_id (d :: u)) by exact H2.
  rewrite <- Er. apply rev_involutive.
Qed.

(** ** Joining relative paths *)

Lemma str_app_assoc s t u : ((s ++ t) ++ u)%string = (s ++ (t ++ u))%string.
Proof. induction s as [|a s IH]; cbn; congruence. Qed.

Lemma rev_list_nil t : rev (list_ascii_of_string t) = [] -> t = "".
Proof.
  intros E. apply (f_equal (@rev ascii)) in E. rewrite rev_involutive in E.
  rewrite <- (string_of_list_ascii_of_string t), E. reflexivity.
Qed.

Lemma ends_with_slash_app s t :
  t <> "" -> ends_with_slash (s ++ t) = ends_with_slash t.
Proof.
  intros Ht. unfold ends_with_slash. rewrite list_ascii_app, rev_app_distr.
  destruct (rev (list_ascii_of_string t)) as [|c r] eqn:E; [|reflexivity].
  exfalso. exact (Ht (rev_list_nil t E)).
Qed.

Lemma path_join_slash a x :
  ends_with_slash a = true -> path_join a x = a ++ x.
Proof.
  intros H. unfold path_join.
  destruct (String.eqb_spec a "") as [->|_]; [discriminate|].
  unfold ends_with_slash in H.
  destruct (rev (list_ascii_of_string a)) as [|c r]; [discriminate|].
  now rewrite H.
Qed.

Lemma path_join_plain a x :
  a <> "" -> ends_with_slash a = false -> path_join a x = a ++ "/" ++ x.
Proof.
  intros Ha H. unfold path_join.
  destruct (String.eqb_spec a "") as [->|_]; [contradiction|].
  unfold ends_with_slash in H.
  destruct (rev (list_ascii_of_string a)) as [|c r] eqn:E.
  - exfalso. exact (Ha (rev_list_nil a E)).
  - now rewrite H.
Qed.

(** Joining [b] and then [c] is joining [b/c], for a [b] that is not
    empty and does not end in a slash. *)
Lemma path_join_assoc a b c :
  b <> "" -> ends_with_slash b = false ->
  path_join (path_join a b) c = path_join a (b ++ "/" ++ c).
Proof.
  intros Hb Hs.
  destruct (String.eqb_spec a "") as [->|Ha].
  - change (path_join "" b) with b.
    change (path_join "" (b ++ "/" ++ c)) with (b ++ "/" ++ c).
    apply path_join_plain; assumption.
  - destruct (ends_with_slash a) eqn:Ea.
    + rewrite !(path_join_slash a) by exact Ea.
      rewrite path_join_plain.
      * apply str_app_assoc.
      * destruct a; [contradiction|discriminate].
      * rewrite ends_with_slash_app by exact Hb. exact Hs.
    + rewrite !(path_join_plain a) by assumption.
      rewrite path_join_plain.
      * rewrite !str_app_assoc. reflexivity.
      * destruct a; [contradiction|discriminate].
      * rewrite (ends_with_slash_app a ("/" ++ b)) by discriminate.
        rewrite (ends_with_slash_app "/" b) by exact Hb.
        exact Hs.
Qed.

End RecipeProofs.

Module RecipeFacts.
Import NahConan RecipeProofs.

(** In every static build, each requirement of a component that names
    another package ([pkg::component]) names a package [requirements()]
    declares. *)
Theorem external_requirements_declared (os : string) (o : Options)
    (Hstatic : shared o = false) :
  forall n c r, In (n, c) (components (package_info os o)) ->
    In r (c_requires c) -> internal r = false -> required_package r = true.
Proof.
  intros n c r Hin Hr Hint.
  assert (H : forallb (fun nc => forallb (fun r => internal r || required_package r)
                                   (c_requires (snd nc)))
                (components (package_info os o)) = true)
    by (rewrite (MaterializerProofs.static_components os o Hstatic); reflexivity).
  pose proof (forallb_In _ _ _ (forallb_In _ _ _ H Hin) Hr) as Hb.
  cbv beta in Hb. rewrite Hint in Hb. exact Hb.
Qed.

Lemma external_requirements_declared_witness :
  shared default_options = false /\ required_package "openssl::crypto" = true.
Proof.
  split; [reflexivity|].
  apply (external_requirements_declared "Linux" default_options eq_refl
           "nah_materializer"
           (mkComponent ["nah_materializer"]
              ["nah_packaging"; "nah_platform";
               "openssl::crypto"; "libcurl::libcurl"])).
  - rewrite (MaterializerProofs.static_components "Linux" default_options eq_refl).
    cbn. tauto.
  - cbn. tauto.
  - reflexivity.
Defined.

(** In every static build, each requirement of a component inside this
    package names a component the recipe declares. *)
Theorem internal_requirements_declared (os : string) (o : Options)
    (Hstatic : shared o = false) :
  forall n c r, In (n, c) (components (package_info os o)) ->
    In r (c_requires c) -> internal r = true ->
    In r (PyDict.keys (components (package_info os o))).
Proof.
  intros n c r Hin Hr Hint.
  rewrite (MaterializerProofs.static_components os o Hstatic) in *.
  assert (H : forallb (fun nc => forallb (fun r => negb (internal r) ||
                 existsb (String.eqb r)
                   ["nahhost"; "nah_materializer"; "nah_contract";
                    "nah_manifest"; "nah_config"; "nah_platform";
                    "nah_packaging"]) (c_requires (snd nc)))
                [("nahhost",
                  mkComponent [if String.eqb os "Windows" then "nahhost_static"
                               else "nahhost"]
                    ["nah_contract"; "nah_config"; "nah_platform";
                     "nah_packaging"; "nah_materializer"]);
                 ("nah_materializer",
                  mkComponent ["nah_materializer"]
                    ["nah_packaging"; "nah_platform";
                     "openssl::crypto"; "libcurl::libcurl"]);
                 ("nah_contract",
                  mkComponent ["nah_contract"]
                    ["nah_manifest"; "nah_config"; "nah_platform";
                     "nlohmann_json::nlohmann_json"; "tomlplusplus::tomlplusplus"]);
                 ("nah_manifest", mkComponent ["nah_manifest"] []);
                 ("nah_config",
                  mkComponent ["nah_config"] ["tomlplusplus::tomlplusplus"]);
                 ("nah_platform", mkComponent ["nah_platform"] []);
                 ("nah_packaging",
                  mkComponent ["nah_packaging"]
                    ["nah_manifest"; "nah_config"; "nah_platform";
                     "nah_contract"; "zlib::zlib"])] = true)
    by reflexivity.
  pose proof (forallb_In _ _ _ (forallb_In _ _ _ H Hin) Hr) as Hb.
  cbv beta in Hb. rewrite Hint in Hb. cbn [negb orb] in Hb.
  apply existsb_exists in Hb as [x [Hx Hrx]].
  apply String.eqb_eq in Hrx. subst x. exact Hx.
Qed.

Lemma internal_requirements_declared_witness :
  shared default_options = false
  /\ In "nah_packaging"
       (PyDict.keys (components (package_info "Linux" default_options))).
Proof.
  split; [reflexivity|].
  apply (internal_requirements_declared "Linux" default_options eq_refl
           "nah_materializer"
           (mkComponent ["nah_materializer"]
              ["nah_packaging"; "nah_platform";
               "openssl::crypto"; "libcurl::libcurl"])).
  - rewrite (MaterializerProofs.static_components "Linux" default_options eq_refl).
    cbn. tauto.
  - cbn. tauto.
  - reflexivity.
Defined.

(** In every static build [nahhost] reaches every other library component
    through the [requires] graph, and no component requires [nahhost],
    directly or transitively. *)
Theorem nahhost_aggregates_components (os : string) (o : Options)
    (Hstatic : shared o = false) :
  (forall x, In x core_components -> depends_on (package_info os o) "nahhost" x)
  /\ (forall a, ~ depends_on (package_info os o) a "nahhost").
Proof.
  split.
  - assert (Hd : forall x, In x ["nah_contract"; "nah_config"; "nah_platform";
                                "nah_packaging"; "nah_materializer"] ->
                 edge (package_info os o) "nahhost" x).
    { intros x Hx. exists
        (mkComponent [if String.eqb os "Windows" then "nahhost_static"
                      else "nahhost"]
           ["nah_contract"; "nah_config"; "nah_platform";
            "nah_packaging"; "nah_materializer"]).
      rewrite (MaterializerProofs.static_components os o Hstatic).
      split; [reflexivity|]. split; [exact Hx|].
      repeat (destruct Hx as [<-|Hx]; [reflexivity|]). destruct Hx. }
    intros x Hx. unfold core_components in Hx.
    destruct Hx as [<-|Hx].
    + apply (dep_trans _ _ "nah_contract").
      * apply Hd. cbn. tauto.
      * apply dep_edge. exists (mkComponent ["nah_contract"]
          ["nah_manifest"; "nah_config"; "nah_platform";
           "nlohmann_json::nlohmann_json"; "tomlplusplus::tomlplusplus"]).
        rewrite (MaterializerProofs.static_components os o Hstatic).
        split; [reflexivity|]. split; [cbn; tauto|reflexivity].
    + apply dep_edge, Hd. cbn in Hx |- *. tauto.
  - intros a Ha.
    pose proof (NahConanProofs.static_depends_rank os o a "nahhost" Hstatic Ha).
    pose proof (rank_le a). cbn in H. lia.
Qed.

Lemma nahhost_aggregates_components_witness :
  shared default_options = false
  /\ depends_on (package_info "Linux" default_options) "nahhost" "nah_manifest".
Proof.
  split; [reflexivity|].
  apply (proj1 (nahhost_aggregates_components "Linux" default_options eq_refl)).
  cbn. tauto.
Defined.

(** Conan's option steps never change [shared] and never change a value of
    [fPIC]: they only remove it; off Windows a static build keeps its
    options unchanged.  [generate] after them passes the user's [shared]
    choice. *)
Theorem configure_preserves_options (os : string) (o : Options) :
  shared (configured os o) = shared o
  /\ (fPIC (configured os o) = None \/ fPIC (configured os o) = fPIC o)
  /\ (String.eqb os "Windows" = false -> shared o = false ->
      configured os o = o)
  /\ PyDict.get "NAH_BUILD_SHARED" (generate os (configured os o)) =
       Some (VBool (shared o)).
Proof.
  unfold configured, configure, config_options, rm_safe_fPIC.
  destruct (String.eqb os "Windows"), (shared o) eqn:Hs; cbn;
    rewrite ?Hs; repeat split; auto; try discriminate;
    unfold generate; destruct (String.eqb os "Windows"); cbn;
    rewrite ?Hs; reflexivity.
Qed.

(** On a POSIX host, [os.path.join(os.path.dirname(__file__),
    "VERSION")] is the VERSION file next to the recipe: for a recipe at
    [d/base] it is [d/VERSION] (at [/VERSION] for a recipe in the root),
    and for a bare file name it is [VERSION], relative to the working
    directory. *)
Theorem version_file_next_to_recipe (d base : string)
    (Hbase : has_slash base = false) (Hd : ends_with_slash d = false) :
  version_path posixpath (d ++ "/" ++ base) = d ++ "/VERSION"
  /\ version_path posixpath base = "VERSION".
Proof.
  unfold version_path. cbn [posixpath os_dirname os_join].
  rewrite !posix_join_relative by reflexivity.
  rewrite dirname_file by assumption.
  rewrite dirname_no_slash by exact Hbase. split; [|reflexivity].
  destruct (String.eqb_spec d "") as [->|Hne]; [reflexivity|].
  unfold path_join. apply String.eqb_neq in Hne. rewrite Hne.
  unfold ends_with_slash in Hd.
  destruct (rev (list_ascii_of_string d)) as [|c r] eqn:E; [|now rewrite Hd].
  apply (f_equal (@rev ascii)) in E. rewrite rev_involutive in E.
  rewrite <- (string_of_list_ascii_of_string d), E in Hne.
  discriminate Hne.
Qed.

Lemma version_file_next_to_recipe_witness :
  has_slash "conanfile.py" = false /\ ends_with_slash "/home/nah" = false
  /\ version_path posixpath "/home/nah/conanfile.py" = "/home/nah/VERSION".
Proof.
  split; [reflexivity|]. split; [reflexivity|].
  exact (proj1 (version_file_next_to_recipe "/home/nah" "conanfile.py"
                  eq_refl eq_refl)).
Defined.

(** On any host, the version [get_version] returns never begins or ends
    with whitespace (Python's [str.isspace], Unicode included), and the
    contents of a readable VERSION file that already have none are
    returned unchanged. *)
Theorem get_version_trimmed (ospath : OsPath)
    (load : string -> option pystr) (file : string) :
  edge_space_free (get_version ospath load file) = true
  /\ (forall s, load (version_path ospath file) = Some s ->
        edge_space_free s = true -> get_version ospath load file = s).
Proof.
  unfold get_version. fold (version_path ospath file). split.
  - destruct (load (version_path ospath file)); [apply strip_edge_space_free|].
    reflexivity.
  - intros s Hl Hs. rewrite Hl. now apply strip_id.
Qed.

(** Every file [package()] copies lands in the package folder: each
    destination is the package folder joined with [licenses], [include],
    [lib] or [bin], and begins with the package folder's path; the copies
    that flatten directories ([keep_path=False]) all take files from the
    build folder. *)
Theorem package_destinations (o : Options)
    (source_folder build_folder package_folder : string) :
  forall c, In c (package o source_folder build_folder package_folder) ->
    (exists sub, In sub ["licenses"; "include"; "lib"; "bin"]
                 /\ cp_dst c = path_join package_folder sub)
    /\ String.prefix package_folder (cp_dst c) = true
    /\ (cp_keep_path c = false -> cp_src c = build_folder).
Proof.
  intros c Hc. unfold package in Hc.
  assert (Hpre : forall sub, String.prefix package_folder
                               (path_join package_folder sub) = true)
    by (intros; apply prefix_path_join).
  apply in_app_or in Hc as [Hc|Hc];
    [|destruct (shared o); [|destruct Hc]];
    repeat (destruct Hc as [<-|Hc];
            [cbn [cp_dst cp_src cp_keep_path];
             (split; [eexists; split; [|reflexivity]; cbn; tauto|]);
             (split; [apply Hpre|]); first [discriminate | reflexivity]|]);
    destruct Hc.
Qed.

Lemma package_destinations_witness :
  In (mkCopy "*.dll" "/b" "/p/bin" false)
     (package (mkOptions true None) "/s" "/b" "/p")
  /\ String.prefix "/p" "/p/bin" = true.
Proof.
  split; [cbn; tauto|].
  exact (proj1 (proj2 (package_destinations (mkOptions true None) "/s" "/b" "/p"
                         (mkCopy "*.dll" "/b" "/p/bin" false)
                         ltac:(cbn; tauto)))).
Defined.

(** Every file the example SDK's [package()] copies lands in its package
    folder: each destination is the package folder joined with [include],
    [lib], [bin] or [resources] and begins with its path; the flattened
    copies (libraries and the loader binaries) take files from the build
    folder, and both loader binaries go to [bin]. *)
Theorem sdk_package_destinations
    (source_folder build_folder package_folder : string) :
  let pkg := GameEngineSDK.package source_folder build_folder package_folder in
  (forall c, In c pkg ->
     (exists sub, In sub ["include"; "lib"; "bin"; "resources"]
                  /\ cp_dst c = path_join package_folder sub)
     /\ String.prefix package_folder (cp_dst c) = true
     /\ (cp_keep_path c = false -> cp_src c = build_folder))
  /\ In (mkCopy "engine-loader" build_folder (path_join package_folder "bin") false) pkg
  /\ In (mkCopy "engine-loader.exe" build_folder (path_join package_folder "bin") false) pkg.
Proof.
  cbv zeta. split; [|split; cbn; tauto].
  intros c Hc. unfold GameEngineSDK.package in Hc. cbv zeta in Hc.
  repeat (destruct Hc as [<-|Hc];
          [cbn [cp_dst cp_src cp_keep_path];
           (split; [eexists; split; [|reflexivity]; cbn; tauto|]);
           (split; [apply prefix_path_join|]); first [discriminate | reflexivity]|]).
  destruct Hc.
Qed.

End RecipeFacts.

(** ** The example SDK's published properties *)

Module SdkFacts.
Import NahConan RecipeProofs Materializer Composer.

(** The paths the example SDK publishes are the ones its [package()]
    fills: the loader executable [nah:loader_exec], taken relative to the
    package folder, is where the flattened copy of [engine-loader] from
    the build folder puts that file; [nah:resource_root] is the directory
    the resources are copied to, and each include directory is one the
    headers are copied to. *)
Theorem sdk_published_paths_installed
    (source_folder build_folder package_folder : string) :
  let props := GameEngineSDK.properties GameEngineSDK.package_info in
  let pkg := GameEngineSDK.package source_folder build_folder package_folder in
  (forall x, PyDict.get "nah:loader_exec" props = Some (GameEngineSDK.PStr x) ->
     exists c, In c pkg /\ cp_src c = build_folder /\ cp_keep_path c = false
               /\ path_join (cp_dst c) (cp_pattern c) = path_join package_folder x)
  /\ (forall x, PyDict.get "nah:resource_root" props = Some (GameEngineSDK.PStr x) ->
      exists c, In c pkg /\ cp_pattern c = "*"
                /\ cp_dst c = path_join package_folder x)
  /\ (forall d, In d (GameEngineSDK.includedirs GameEngineSDK.package_info) ->
      exists c, In c pkg /\ cp_dst c = path_join package_folder d).
Proof.
  cbv zeta. split; [|split].
  - intros x Hx. vm_compute in Hx. injection Hx as <-.
    exists (mkCopy "engine-loader" build_folder (path_join package_folder "bin")
              false).
    split; [cbn; tauto|]. cbn [cp_src cp_dst cp_pattern cp_keep_path].
    split; [reflexivity|]. split; [reflexivity|].
    exact (path_join_assoc package_folder "bin" "engine-loader"
             ltac:(discriminate) eq_refl).
  - intros x Hx. vm_compute in Hx. injection Hx as <-.
    exists (mkCopy "*" (path_join source_folder "resources")
              (path_join package_folder "resources") true).
    split; [cbn; tauto|]. split; reflexivity.
  - intros d Hd. cbn in Hd. destruct Hd as [<-|[]].
    exists (mkCopy "*.h" (path_join source_folder "include")
              (path_join package_folder "include") true).
    split; [cbn; tauto|]. reflexivity.
Qed.

(** Composing a launch contract from the example SDK's published
    properties: on a supported platform and with a NAK, [compose] succeeds
    whatever the manifest and the config pairs, runs [bin/engine-loader]
    with the application's entry, root and id and the NAK root, in the
    application root, with the SDK's two environment values; without a
    NAK and with no config binding for [NAH_NAK_ROOT] it fails with
    [UnresolvedVariable]. *)
Theorem sdk_launch_contract (m : Manifest) (config : list (string * string))
    (p : Platform) (nak : MaterializedNak)
    (Hp : platform_ok m p = true) :
  compose m config p (Some nak)
    (GameEngineSDK.properties GameEngineSDK.package_info)
  = Ok (mkContract "bin/engine-loader"
          ["--app-entry"; entry m; "--app-root"; app_root p;
           "--app-id"; app_id m; "--engine-root"; root_path nak]
          [("GAMEENGINE_VERSION", GameEngineSDK.version);
           ("GAMEENGINE_LOG_LEVEL", "info")]
          (app_root p) (Some (root_path nak)))
  /\ (PyDict.get "NAH_NAK_ROOT" config = None ->
      compose m config p None
        (GameEngineSDK.properties GameEngineSDK.package_info)
      = Err UnresolvedVariable).
Proof.
  split.
  - unfold compose. rewrite Hp. cbn.
    rewrite !app_nil_r, !string_of_list_ascii_of_string. reflexivity.
  - intros Hc. apply ComposerProofs.compose_unresolved; [exact Hp|].
    exists "NAH_NAK_ROOT". split; [vm_compute; tauto|].
    cbn. exact Hc.
Qed.

Lemma sdk_launch_contract_witness :
  platform_ok example_manifest example_platform = true
  /\ compose example_manifest [] example_platform (Some example_nak)
       (GameEngineSDK.properties GameEngineSDK.package_info)
     = Ok (mkContract "bin/engine-loader"
             ["--app-entry"; "run"; "--app-root"; "/apps/com.example.app";
              "--app-id"; "com.example.app"; "--engine-root";
              "/naks/engine/1.0.0"]
             [("GAMEENGINE_VERSION", "1.0.0");
              ("GAMEENGINE_LOG_LEVEL", "info")]
             "/apps/com.example.app" (Some "/naks/engine/1.0.0")).
Proof.
  split; [reflexivity|].
  exact (proj1 (sdk_launch_contract example_manifest [] example_platform
                  example_nak eq_refl)).
Defined.

End SdkFacts.
